(** * The force engine of lib/VBOBox.js (class [Force])

  A shallow embedding of [Force.apply] and [Force.draw] and of the data
  they work on: the state buffer (a [Float32Array]), the [glMatrix.vec3]
  helpers the kernels call, and the [Force] object itself.

  JavaScript numbers are kept abstract: the kernels are written over an
  interface [Arith] that names every primitive the source uses.  What is
  proved for every [Arith] holds whatever the rounding; the statements that
  need algebra are proved for the reading of numbers as real numbers
  ([IdealArith], exact arithmetic). *)

From Stdlib Require Import Reals Lra Lia ZArith QArith Qreals List Bool.
From stdpp Require Import base list.

Set Default Proof Using "Type".

(** ** Numbers *)

(** The primitives of JavaScript arithmetic used by the source.  [lit] is a
  numeric literal, [nan] the number [undefined] converts to, [fround] the
  rounding of a store into a [Float32Array].  [ltb], [leb], [eqb] are
  [<], [<=] and [==]; [a > b] is read as [b < a]. *)
Class Arith (num : Type) := {
lit : Q -> num;
nan : num;
Math_PI : num;
add : num -> num -> num;
sub : num -> num -> num;
mul : num -> num -> num;
div : num -> num -> num;
neg : num -> num;
ltb : num -> num -> bool;
leb : num -> num -> bool;
eqb : num -> num -> bool;
Math_sqrt : num -> num;
Math_abs : num -> num;
Math_cos : num -> num;
Math_sin : num -> num;
Math_acos : num -> num;
Math_pow : num -> num -> num;
Math_min : num -> num -> num;
Math_max : num -> num -> num;
fround : num -> num
}.

Definition gtb {num} `{Arith num} (a b : num) : bool := ltb b a.

(** ** glMatrix.vec3

  The library is not part of the repository; its functions are written
  here as gl-matrix documents them.  A [vec3] is a [Float32Array] of three
  elements, so every component written is rounded by [fround]. *)

Record vec3 (num : Type) := Vec3 { vx : num; vy : num; vz : num }.
Arguments Vec3 {num} _ _ _.
Arguments vx {num} _.
Arguments vy {num} _.
Arguments vz {num} _.

Module glMatrix.
Section Vec3.
Context {num : Type} `{Arith num}.

Definition create : vec3 num := Vec3 (lit 0) (lit 0) (lit 0).

Definition zero : vec3 num := Vec3 (lit 0) (lit 0) (lit 0).

Definition fromValues (x y z : num) : vec3 num :=
  Vec3 (fround x) (fround y) (fround z).

Definition vadd (a b : vec3 num) : vec3 num :=
  Vec3 (fround (add (vx a) (vx b)))
       (fround (add (vy a) (vy b)))
       (fround (add (vz a) (vz b))).

Definition vsub (a b : vec3 num) : vec3 num :=
  Vec3 (fround (sub (vx a) (vx b)))
       (fround (sub (vy a) (vy b)))
       (fround (sub (vz a) (vz b))).

Definition scale (a : vec3 num) (b : num) : vec3 num :=
  Vec3 (fround (mul (vx a) b))
       (fround (mul (vy a) b))
       (fround (mul (vz a) b)).

Definition scaleAndAdd (a b : vec3 num) (c : num) : vec3 num :=
  Vec3 (fround (add (vx a) (mul (vx b) c)))
       (fround (add (vy a) (mul (vy b) c)))
       (fround (add (vz a) (mul (vz b) c))).

Definition dot (a b : vec3 num) : num :=
  add (add (mul (vx a) (vx b)) (mul (vy a) (vy b))) (mul (vz a) (vz b)).

(** [vec3.length], also exported as [vec3.len]:
    [Math.sqrt(x*x + y*y + z*z)]. *)
Definition length (a : vec3 num) : num :=
  Math_sqrt (add (add (mul (vx a) (vx a)) (mul (vy a) (vy a)))
                 (mul (vz a) (vz a))).

(** [vec3.angle]: the angle between two vectors, the cosine clamped to
    [-1, 1]; for a vector of length 0 the cosine is taken as 0. *)
Definition angle (a b : vec3 num) : num :=
  let mag := mul (length a) (length b) in
  let cosine := if eqb mag (lit 0) then lit 0 else div (dot a b) mag in
  Math_acos (Math_min (Math_max cosine (neg (lit 1))) (lit 1)).

(** [vec3.rotateZ(out, a, b, rad)]: [a] rotated about the z axis through
    the point [b].  The temporaries [p] and [r] are plain arrays, only
    [out] is rounded. *)
Definition rotateZ (a b : vec3 num) (rad : num) : vec3 num :=
  let p0 := sub (vx a) (vx b) in
  let p1 := sub (vy a) (vy b) in
  let p2 := sub (vz a) (vz b) in
  let r0 := sub (mul p0 (Math_cos rad)) (mul p1 (Math_sin rad)) in
  let r1 := add (mul p0 (Math_sin rad)) (mul p1 (Math_cos rad)) in
  let r2 := p2 in
  Vec3 (fround (add r0 (vx b))) (fround (add r1 (vy b)))
       (fround (add r2 (vz b))).
End Vec3.
End glMatrix.

(** ** Globals the file reads but does not declare *)

(** Modelled from the spec: the constants [STATE_SIZE], [STATE.P_X] ...
  [STATE.MASS] and [BOID_PARTICLE_COUNT], and the goal point
  [boid.force_set[3]], are declared outside lib/VBOBox.js.  The spec gives
  their role (a fixed per-particle stride, named field offsets, a
  flock-size constant whose last index is the predator, one external goal
  point) but not their values; they are parameters here. *)
Record Globals (num : Type) := {
STATE_SIZE : nat;
P_X : nat; P_Y : nat; P_Z : nat;
V_X : nat; V_Y : nat; V_Z : nat;
F_X : nat; F_Y : nat; F_Z : nat;
MASS : nat;
BOID_PARTICLE_COUNT : nat;
boid_goal : vec3 num
}.
Arguments STATE_SIZE {num} _.
Arguments P_X {num} _.
Arguments P_Y {num} _.
Arguments P_Z {num} _.
Arguments V_X {num} _.
Arguments V_Y {num} _.
Arguments V_Z {num} _.
Arguments F_X {num} _.
Arguments F_Y {num} _.
Arguments F_Z {num} _.
Arguments MASS {num} _.
Arguments BOID_PARTICLE_COUNT {num} _.
Arguments boid_goal {num} _.

(** The ten named fields of a particle, in the order the spec lists them. *)
Definition fields {num} (G : Globals num) : list nat :=
[P_X G; P_Y G; P_Z G; V_X G; V_Y G; V_Z G; F_X G; F_Y G; F_Z G; MASS G].

(** The layout invariant of the spec: the named offsets are distinct and lie
  inside the stride. *)
Definition layout_ok {num} (G : Globals num) : Prop :=
NoDup (fields G) /\ Forall (fun o => (o < STATE_SIZE G)%nat) (fields G).

(** ** FORCE_TYPE *)

Module FORCE_TYPE.
Definition FORCE_SIMP_GRAVITY : nat := 0.
Definition FORCE_DRAG : nat := 1.
Definition FORCE_WIND : nat := 2.
Definition FORCE_SPRING : nat := 3.
Definition FORCE_FLOCK : nat := 4.
Definition FORCE_PLANETARY_GRAVITY : nat := 5.
Definition FORCE_LINE_ATTRACTOR : nat := 6.
Definition FORCE_VORTEX : nat := 7.
Definition FORCE_UNIFORM_POINT_ATTRACTOR : nat := 8.
Definition FORCE_POINT_ATTRACTOR : nat := 9.
End FORCE_TYPE.

(** ** The Force object *)

(** One record carries the fields of every variant, as the JavaScript object
  does.  A field its initialiser never set is [undefined] in the source; it
  reads as [nan] here. *)
Record Force (num : Type) := {
_type : nat;
_p : list nat;
_enabled : bool;
_magnitude : num; _x : num; _y : num; _z : num;
_k : num; _lr : num; _d : num;
_r1 : num; _r2 : num; _t1 : num; _t2 : num;
_ka : num; _kv : num; _kc : num; _koa : num; _kgs : num;
_x_a : vec3 num; _a : vec3 num; _pow : num; _L : num; _r : num
}.
Arguments _type {num} _.
Arguments _p {num} _.
Arguments _enabled {num} _.
Arguments _magnitude {num} _.
Arguments _x {num} _.
Arguments _y {num} _.
Arguments _z {num} _.
Arguments _k {num} _.
Arguments _lr {num} _.
Arguments _d {num} _.
Arguments _r1 {num} _.
Arguments _r2 {num} _.
Arguments _t1 {num} _.
Arguments _t2 {num} _.
Arguments _ka {num} _.
Arguments _kv {num} _.
Arguments _kc {num} _.
Arguments _koa {num} _.
Arguments _kgs {num} _.
Arguments _x_a {num} _.
Arguments _a {num} _.
Arguments _pow {num} _.
Arguments _L {num} _.
Arguments _r {num} _.

(** What [console.log] prints in the default case of the dispatch. *)
Inductive Console : Type :=
| Unimplemented_force_type (type : nat).

Arguments lit {num _} _%_Q.

(** ** The state buffer and the kernels *)

Section Engine.
Context {num : Type} `{Arith num}.
Variable G : Globals num.

(** The state vector [s] is a [Float32Array]. *)
Definition Float32Array : Type := list num.

(** [s[i]] read as a number: past the end the element is [undefined]. *)
Definition rd (s : Float32Array) (i : nat) : num := default nan (s !! i).

(** [s[i]] for an index computed with a subtraction. *)
Definition rdZ (s : Float32Array) (i : Z) : num :=
  if (i <? 0)%Z then nan else rd s (Z.to_nat i).

(** [s[i] = v]: the value is rounded; a store past the end is ignored. *)
Definition wr (s : Float32Array) (i : nat) (v : num) : Float32Array :=
  <[i := fround v]> s.

(** [s[i] += v] and [s[i] -= v]. *)
Definition add_to (s : Float32Array) (i : nat) (v : num) : Float32Array :=
  wr s i (add (rd s i) v).

Definition sub_from (s : Float32Array) (i : nat) (v : num) : Float32Array :=
  wr s i (sub (rd s i) v).

(** [(q * STATE_SIZE) + STATE.field]. *)
Definition ix (q : nat) (field : nat) : nat := q * STATE_SIZE G + field.

(** The same accesses through [this._p[k]] for a constant [k], which is
    [undefined] when the list is too short: the read is then [undefined]
    and the store is ignored. *)
Definition ixo (q : option nat) (field : nat) : option nat :=
  (fun q => ix q field) <$> q.

Definition rdo (s : Float32Array) (i : option nat) : num :=
  match i with Some i => rd s i | None => nan end.

Definition add_to_o (s : Float32Array) (i : option nat) (v : num)
  : Float32Array :=
  match i with Some i => add_to s i v | None => s end.

(** [vec3.fromValues(s[q*STATE_SIZE + P_X], ... P_Y, ... P_Z)] and the same
    for the velocity fields. *)
Definition position (s : Float32Array) (q : nat) : vec3 num :=
  glMatrix.fromValues (rd s (ix q (P_X G))) (rd s (ix q (P_Y G)))
                      (rd s (ix q (P_Z G))).

Definition velocity (s : Float32Array) (q : nat) : vec3 num :=
  glMatrix.fromValues (rd s (ix q (V_X G))) (rd s (ix q (V_Y G)))
                      (rd s (ix q (V_Z G))).

(** The three statements [s[q*STATE_SIZE + F_X] += d[0]; ... F_Y ...;
    ... F_Z ...] that end most kernels. *)
Definition add_force (s : Float32Array) (q : nat) (d : vec3 num)
  : Float32Array :=
  add_to (add_to (add_to s (ix q (F_X G)) (vx d)) (ix q (F_Y G)) (vy d))
         (ix q (F_Z G)) (vz d).

Definition add_velocity (s : Float32Array) (q : nat) (d : vec3 num)
  : Float32Array :=
  add_to (add_to (add_to s (ix q (V_X G)) (vx d)) (ix q (V_Y G)) (vy d))
         (ix q (V_Z G)) (vz d).

Variable f : Force num.

(** *** FORCE_SIMP_GRAVITY *)
Definition simp_gravity_step (s : Float32Array) (q : nat) : Float32Array :=
  add_to s (ix q (F_Z G)) (mul (rd s (ix q (MASS G))) (_magnitude f)).

Definition apply_simp_gravity (s : Float32Array) : Float32Array :=
  fold_left simp_gravity_step (_p f) s.

(** *** FORCE_DRAG *)
Definition drag_step (s : Float32Array) (q : nat) : Float32Array :=
  let s1 := sub_from s (ix q (F_X G))
              (mul (rd s (ix q (V_X G))) (mul (_x f) (_magnitude f))) in
  let s2 := sub_from s1 (ix q (F_Y G))
              (mul (rd s1 (ix q (V_Y G))) (mul (_y f) (_magnitude f))) in
  sub_from s2 (ix q (F_Z G))
    (mul (rd s2 (ix q (V_Z G))) (mul (_z f) (_magnitude f))).

Definition apply_drag (s : Float32Array) : Float32Array :=
  fold_left drag_step (_p f) s.

(** *** FORCE_WIND

    [random n] is the value of the [n]-th call of [Math.random()] during
    the call; the kernel draws three per particle. *)
Variable random : nat -> num.

Definition gust (n : nat) : num :=
  sub (mul (random n) (lit 2)) (lit 1).

Definition wind_step (sc : Float32Array * nat) (q : nat)
  : Float32Array * nat :=
  let '(s, c) := sc in
  let s1 := add_to s (ix q (F_X G))
              (mul (mul (_x f) (_magnitude f)) (gust c)) in
  let s2 := add_to s1 (ix q (F_Y G))
              (mul (mul (_y f) (_magnitude f)) (gust (c + 1))) in
  (add_to s2 (ix q (F_Z G))
     (mul (mul (_z f) (_magnitude f)) (gust (c + 2))), c + 3).

Definition apply_wind (s : Float32Array) : Float32Array :=
  fst (fold_left wind_step (_p f) (s, 0)).

(** *** FORCE_SPRING *)

(** [[Lx, Ly, Lz]], the offset from particle [_p[0]] to particle [_p[1]]. *)
Definition spring_L (s : Float32Array) : num * num * num :=
  let p0 := _p f !! 0 in
  let p1 := _p f !! 1 in
  (sub (rdo s (ixo p1 (P_X G))) (rdo s (ixo p0 (P_X G))),
   sub (rdo s (ixo p1 (P_Y G))) (rdo s (ixo p0 (P_Y G))),
   sub (rdo s (ixo p1 (P_Z G))) (rdo s (ixo p0 (P_Z G)))).

Definition spring_distance (s : Float32Array) : num :=
  let '(Lx, Ly, Lz) := spring_L s in
  Math_sqrt (add (add (Math_pow Lx (lit 2)) (Math_pow Ly (lit 2)))
                 (Math_pow Lz (lit 2))).

(** [[Fx, Fy, Fz]] of Hooke's law, each component limited to 12.  The
    damping lines are commented out in the source. *)
Definition spring_F (s : Float32Array) : vec3 num :=
  let '(Lx, Ly, Lz) := spring_L s in
  let distance := spring_distance s in
  let L := sub distance (_lr f) in
  Vec3 (Math_min (div (mul (mul (_k f) L) Lx) distance) (lit 12))
       (Math_min (div (mul (mul (_k f) L) Ly) distance) (lit 12))
       (Math_min (div (mul (mul (_k f) L) Lz) distance) (lit 12)).

Definition apply_spring (s : Float32Array) : Float32Array :=
  let p0 := _p f !! 0 in
  let p1 := _p f !! 1 in
  let F := spring_F s in
  let s1 := add_to_o s (ixo p0 (F_X G)) (vx F) in
  let s2 := add_to_o s1 (ixo p0 (F_Y G)) (vy F) in
  let s3 := add_to_o s2 (ixo p0 (F_Z G)) (vz F) in
  let s4 := add_to_o s3 (ixo p1 (F_X G)) (neg (vx F)) in
  let s5 := add_to_o s4 (ixo p1 (F_Y G)) (neg (vy F)) in
  add_to_o s5 (ixo p1 (F_Z G)) (neg (vz F)).

(** *** FORCE_FLOCK *)

(** The 'predator': particle [BOID_PARTICLE_COUNT - 1]. *)
Definition predator_ix (field : nat) : Z :=
  ((Z.of_nat (BOID_PARTICLE_COUNT G) - 1) * Z.of_nat (STATE_SIZE G)
   + Z.of_nat field)%Z.

Definition x_p (s : Float32Array) : vec3 num :=
  glMatrix.fromValues (rdZ s (predator_ix (P_X G)))
                      (rdZ s (predator_ix (P_Y G)))
                      (rdZ s (predator_ix (P_Z G))).

(** The 'goal': [boid.force_set[3]]. *)
Definition x_g : vec3 num :=
  glMatrix.fromValues (vx (boid_goal G)) (vy (boid_goal G))
                      (vz (boid_goal G)).

(** [this._p[i]] inside a loop over [i < this._p.length]. *)
Definition particle (i : nat) : nat := nth i (_p f) 0.

(** [x_ij], [d_ij] and [t_ij] for the boids at places [i] and [j] of the
    target list. *)
Definition x_ij (s : Float32Array) (i j : nat) : vec3 num :=
  glMatrix.vsub (position s (particle j)) (position s (particle i)).

Definition d_ij (s : Float32Array) (i j : nat) : num :=
  glMatrix.length (x_ij s i j).

Definition t_ij (s : Float32Array) (i j : nat) : num :=
  glMatrix.angle (x_ij s i j) (velocity s (particle j)).

(** [x_hat = vec3.scale(x_hat, x_ij, d_ij)]. *)
Definition x_hat (s : Float32Array) (i j : nat) : vec3 num :=
  glMatrix.scale (x_ij s i j) (d_ij s i j).

(** The test before [continue]: this boid is the current boid, is too far
    away, or is in a blind spot. *)
Definition flock_skip (s : Float32Array) (i j : nat) : bool :=
  (i =? j) || eqb (d_ij s i j) (lit 0) || gtb (d_ij s i j) (_r2 f)
  || gtb (t_ij s i j) (mul (_t2 f) (lit 0.5)).

Definition k_d (s : Float32Array) (i j : nat) : num :=
  if ltb (d_ij s i j) (_r1 f) then lit 1
  else div (sub (_r2 f) (d_ij s i j)) (sub (_r2 f) (_r1 f)).

Definition k_t (s : Float32Array) (i j : nat) : num :=
  if ltb (t_ij s i j) (mul (_t1 f) (lit 0.5)) then lit 1
  else div (sub (mul (_t2 f) (lit 0.5)) (t_ij s i j))
           (sub (mul (_t2 f) (lit 0.5)) (mul (_t1 f) (lit 0.5))).

(** The five terms added to [a_i] for a neighbour that is not skipped. *)
Definition collision_avoidance (s : Float32Array) (i j : nat) : vec3 num :=
  glMatrix.scale (x_hat s i j)
    (mul (mul (k_t s i j) (k_d s i j))
         (div (mul (neg (lit 1)) (_ka f)) (d_ij s i j))).

Definition velocity_matching (s : Float32Array) (i j : nat) : vec3 num :=
  glMatrix.scale
    (glMatrix.vsub (velocity s (particle j)) (velocity s (particle i)))
    (mul (mul (k_t s i j) (k_d s i j)) (_kv f)).

Definition centering (s : Float32Array) (i j : nat) : vec3 num :=
  glMatrix.scale (x_ij s i j) (mul (mul (k_t s i j) (k_d s i j)) (_kc f)).

Definition obstacle_avoidance (xp : vec3 num) (s : Float32Array) (i : nat)
  : vec3 num :=
  let x_ip := glMatrix.vsub xp (position s (particle i)) in
  let d_ip := glMatrix.length x_ip in
  glMatrix.scale x_ip (div (div (mul (neg (lit 1)) (_koa f)) d_ip) d_ip).

Definition goal_seeking (s : Float32Array) (i : nat) : vec3 num :=
  let x_ig := glMatrix.vsub x_g (position s (particle i)) in
  let d_ig := glMatrix.length x_ig in
  glMatrix.scale x_ig (div (_kgs f) d_ig).

(** The body of the inner loop, for one [j]. *)
Definition flock_pair (xp : vec3 num) (s : Float32Array) (i : nat)
    (a_i : vec3 num) (j : nat) : vec3 num :=
  if flock_skip s i j then a_i
  else
    let a1 := glMatrix.vadd a_i (collision_avoidance s i j) in
    let a2 := glMatrix.vadd a1 (velocity_matching s i j) in
    let a3 := glMatrix.vadd a2 (centering s i j) in
    let a4 := glMatrix.vadd a3 (obstacle_avoidance xp s i) in
    glMatrix.vadd a4 (goal_seeking s i).

(** [a_i] after the inner loop. *)
Definition flock_a_i (xp : vec3 num) (s : Float32Array) (i : nat)
  : vec3 num :=
  fold_left (flock_pair xp s i) (seq 0 (List.length (_p f)))
            glMatrix.zero.

(** The body of the outer loop, for one [i]. *)
Definition flock_step (xp : vec3 num) (s : Float32Array) (i : nat)
  : Float32Array :=
  add_force s (particle i) (flock_a_i xp s i).

Definition apply_flock (s : Float32Array) : Float32Array :=
  fold_left (flock_step (x_p s)) (seq 0 (List.length (_p f))) s.

(** *** FORCE_LINE_ATTRACTOR *)

Definition epsilon : num := lit 0.01.

(** [x_ai], [l_ai], [r_ai] and [r] for the particle [q]. *)
Definition x_ai (s : Float32Array) (q : nat) : vec3 num :=
  glMatrix.vsub (position s q) (_x_a f).

Definition l_ai (s : Float32Array) (q : nat) : num :=
  glMatrix.dot (x_ai s q) (_a f).

Definition r_ai (s : Float32Array) (q : nat) : vec3 num :=
  glMatrix.scaleAndAdd (x_ai s q) (_a f) (neg (l_ai s q)).

Definition line_guard (s : Float32Array) (q : nat) : bool :=
  leb epsilon (l_ai s q) && ltb (l_ai s q) (_L f).

Definition a_ai (s : Float32Array) (q : nat) : vec3 num :=
  let r := glMatrix.length (r_ai s q) in
  glMatrix.scale (r_ai s q)
    (mul (neg (lit 9.8)) (Math_pow r (add (_pow f) (lit 1)))).

Definition line_attractor_step (s : Float32Array) (q : nat)
  : Float32Array :=
  if line_guard s q then add_force s q (a_ai s q) else s.

Definition apply_line_attractor (s : Float32Array) : Float32Array :=
  fold_left line_attractor_step (_p f) s.

(** *** FORCE_VORTEX *)

Definition f_R : num := lit 2.
Definition f_max : num := Math_pow (lit 10) (add f_R (lit 1)).

Definition x_vi (s : Float32Array) (q : nat) : vec3 num :=
  glMatrix.vsub (position s q) (_x_a f).

Definition l_vi (s : Float32Array) (q : nat) : num :=
  glMatrix.dot (_a f) (x_vi s q).

Definition r_i (s : Float32Array) (q : nat) : vec3 num :=
  glMatrix.scaleAndAdd (x_vi s q) (_a f) (neg (l_vi s q)).

(** The two nested tests of the kernel. *)
Definition vortex_guard (s : Float32Array) (q : nat) : bool :=
  (leb epsilon (l_vi s q) && ltb (l_vi s q) (_L f))
  && ltb (glMatrix.length (r_i s q)) (_r f).

Definition omega (s : Float32Array) (q : nat) : num :=
  let r := glMatrix.length (r_i s q) in
  let f_i := Math_min f_max (mul (Math_pow (div (_r f) r) (_pow f)) f_R) in
  mul (mul (lit 2) Math_PI) f_i.

(** [v_vi - x_i], the vector added to the velocity. *)
Definition vortex_dv (s : Float32Array) (q : nat) : vec3 num :=
  let x_i := position s q in
  let v_vi := glMatrix.rotateZ x_i (_x_a f) (omega s q) in
  Vec3 (sub (vx v_vi) (vx x_i)) (sub (vy v_vi) (vy x_i))
       (sub (vz v_vi) (vz x_i)).

Definition vortex_step (s : Float32Array) (q : nat) : Float32Array :=
  if vortex_guard s q then add_velocity s q (vortex_dv s q) else s.

Definition apply_vortex (s : Float32Array) : Float32Array :=
  fold_left vortex_step (_p f) s.

(** *** FORCE_UNIFORM_POINT_ATTRACTOR *)

Definition attractor_dir (s : Float32Array) (q : nat) : vec3 num :=
  glMatrix.vsub (_x_a f) (position s q).

Definition uniform_point_attractor_step (s : Float32Array) (q : nat)
  : Float32Array :=
  add_force s q (attractor_dir s q).

Definition apply_uniform_point_attractor (s : Float32Array)
  : Float32Array :=
  fold_left uniform_point_attractor_step (_p f) s.

(** *** FORCE_POINT_ATTRACTOR *)

(** [len > this._L], the test before [continue]. *)
Definition point_skip (s : Float32Array) (q : nat) : bool :=
  gtb (glMatrix.length (attractor_dir s q)) (_L f).

Definition point_pull (s : Float32Array) (q : nat) : vec3 num :=
  let dir := attractor_dir s q in
  let len := glMatrix.length dir in
  glMatrix.scale dir (div (_r f) (Math_pow len (add (_pow f) (lit 1)))).

Definition point_attractor_step (s : Float32Array) (q : nat)
  : Float32Array :=
  if point_skip s q then s else add_force s q (point_pull s q).

Definition apply_point_attractor (s : Float32Array) : Float32Array :=
  fold_left point_attractor_step (_p f) s.

(** *** Force.apply

    The result is the state vector after the call and what was printed. *)
Definition apply_log (s : Float32Array) : Float32Array * list Console :=
  if negb (_enabled f) then (s, [])
  else if _type f =? FORCE_TYPE.FORCE_SIMP_GRAVITY
  then (apply_simp_gravity s, [])
  else if _type f =? FORCE_TYPE.FORCE_DRAG then (apply_drag s, [])
  else if _type f =? FORCE_TYPE.FORCE_WIND then (apply_wind s, [])
  else if _type f =? FORCE_TYPE.FORCE_SPRING then (apply_spring s, [])
  else if _type f =? FORCE_TYPE.FORCE_FLOCK then (apply_flock s, [])
  else if _type f =? FORCE_TYPE.FORCE_LINE_ATTRACTOR
  then (apply_line_attractor s, [])
  else if _type f =? FORCE_TYPE.FORCE_VORTEX then (apply_vortex s, [])
  else if _type f =? FORCE_TYPE.FORCE_UNIFORM_POINT_ATTRACTOR
  then (apply_uniform_point_attractor s, [])
  else if _type f =? FORCE_TYPE.FORCE_POINT_ATTRACTOR
  then (apply_point_attractor s, [])
  else (s, [Unimplemented_force_type (_type f)]).

Definition apply (s : Float32Array) : Float32Array := fst (apply_log s).

(** *** Force.draw *)

(** [len], the current length of the segment from [p0] to [p1]. *)
Definition draw_len (p0 p1 : vec3 num) : num :=
  Math_sqrt
    (add (add (Math_pow (sub (vx p1) (vx p0)) (lit 2))
              (Math_pow (sub (vy p1) (vy p0)) (lit 2)))
         (Math_pow (sub (vz p1) (vz p0)) (lit 2))).

Definition draw_delta (p0 p1 : vec3 num) : num :=
  sub (lit 1) (div (Math_abs (sub (draw_len p0 p1) (_lr f))) (_lr f)).

(** [[r, g, b]] when the vertices are built (plain numbers, not yet
    rounded). *)
Definition spring_colour (p0 p1 : vec3 num) : num * num * num :=
  if ltb (Math_abs (sub (draw_len p0 p1) (_lr f))) (lit 0.01)
  then (lit 1, lit 1, lit 1)
  else
    let delta := draw_delta p0 p1 in
    if leb delta (lit 0.33) then (lit 1, delta, delta)
    else (delta, delta, lit 1).

(** [enabled | 0]. *)
Definition flag (enabled : bool) : num := if enabled then lit 1 else lit 0.

(** A call [vbo.reload(data, index)]: the [Float32Array] passed and the
    element offset. *)
Definition Reload : Type := list num * nat.

(** [draw]: the calls made to [vbo.reload].  [Math.random()] is called
    three times first; in the spring case its values are overwritten. *)
Definition draw (index : nat) (enabled : bool) (p0 p1 : vec3 num)
  : list Reload :=
  let r := random 0 in
  let g := random 1 in
  let b := random 2 in
  let enabled := enabled && _enabled f in
  if _type f =? FORCE_TYPE.FORCE_SPRING then
    let '(r, g, b) := spring_colour p0 p1 in
    [(map fround
        [vx p0; vy p0; vz p0; r; g; b; flag enabled;
         vx p1; vy p1; vz p1; r; g; b; flag enabled],
      index * 7 * 2)]
  else [].
End Engine.

Arguments Float32Array : clear implicits.

(** ** Constructor, initialisers, enable and disable *)

Section Methods.
Context {num : Type} `{Arith num}.

(** [new Force(type, affected_particles)]. *)
Definition new_Force (type : nat) (affected_particles : list nat)
  : Force num :=
  {| _type := type; _p := affected_particles; _enabled := true;
     _magnitude := nan; _x := nan; _y := nan; _z := nan;
     _k := nan; _lr := nan; _d := nan;
     _r1 := nan; _r2 := nan; _t1 := nan; _t2 := nan;
     _ka := nan; _kv := nan; _kc := nan; _koa := nan; _kgs := nan;
     _x_a := Vec3 nan nan nan; _a := Vec3 nan nan nan;
     _pow := nan; _L := nan; _r := nan |}.

(** [init_vectored(magnitude = 1, x = 1, y = 1, z = 1)]; an argument left
    out is [None]. *)
Definition init_vectored (f : Force num) (magnitude x y z : option num)
  : Force num :=
  {| _type := _type f; _p := _p f; _enabled := _enabled f;
     _magnitude := default (lit 1) magnitude;
     _x := default (lit 1) x; _y := default (lit 1) y;
     _z := default (lit 1) z;
     _k := _k f; _lr := _lr f; _d := _d f;
     _r1 := _r1 f; _r2 := _r2 f; _t1 := _t1 f; _t2 := _t2 f;
     _ka := _ka f; _kv := _kv f; _kc := _kc f; _koa := _koa f;
     _kgs := _kgs f;
     _x_a := _x_a f; _a := _a f; _pow := _pow f; _L := _L f; _r := _r f |}.

(** [init_spring(k, length, damp)]. *)
Definition init_spring (f : Force num) (k length damp : num) : Force num :=
  {| _type := _type f; _p := _p f; _enabled := _enabled f;
     _magnitude := _magnitude f; _x := _x f; _y := _y f; _z := _z f;
     _k := k; _lr := length; _d := damp;
     _r1 := _r1 f; _r2 := _r2 f; _t1 := _t1 f; _t2 := _t2 f;
     _ka := _ka f; _kv := _kv f; _kc := _kc f; _koa := _koa f;
     _kgs := _kgs f;
     _x_a := _x_a f; _a := _a f; _pow := _pow f; _L := _L f; _r := _r f |}.

(** [init_boid(min_rad, max_rad, binocular_angle, monocular_angle, k_a,
    k_v, k_c, k_oa, k_gs)]. *)
Definition init_boid (f : Force num)
    (min_rad max_rad binocular_angle monocular_angle : num)
    (k_a k_v k_c k_oa k_gs : num) : Force num :=
  {| _type := _type f; _p := _p f; _enabled := _enabled f;
     _magnitude := _magnitude f; _x := _x f; _y := _y f; _z := _z f;
     _k := _k f; _lr := _lr f; _d := _d f;
     _r1 := min_rad; _r2 := max_rad;
     _t1 := binocular_angle; _t2 := monocular_angle;
     _ka := k_a; _kv := k_v; _kc := k_c; _koa := k_oa; _kgs := k_gs;
     _x_a := _x_a f; _a := _a f; _pow := _pow f; _L := _L f; _r := _r f |}.

(** [init_attractor(x, y, z, a_x, a_y, a_z, p = 2, L = 0, r = 0)]. *)
Definition init_attractor (f : Force num) (x y z a_x a_y a_z : num)
    (p L r : option num) : Force num :=
  {| _type := _type f; _p := _p f; _enabled := _enabled f;
     _magnitude := _magnitude f; _x := _x f; _y := _y f; _z := _z f;
     _k := _k f; _lr := _lr f; _d := _d f;
     _r1 := _r1 f; _r2 := _r2 f; _t1 := _t1 f; _t2 := _t2 f;
     _ka := _ka f; _kv := _kv f; _kc := _kc f; _koa := _koa f;
     _kgs := _kgs f;
     _x_a := glMatrix.fromValues x y z;
     _a := glMatrix.fromValues a_x a_y a_z;
     _pow := default (lit 2) p; _L := default (lit 0) L;
     _r := default (lit 0) r |}.

Definition set_enabled (f : Force num) (b : bool) : Force num :=
  {| _type := _type f; _p := _p f; _enabled := b;
     _magnitude := _magnitude f; _x := _x f; _y := _y f; _z := _z f;
     _k := _k f; _lr := _lr f; _d := _d f;
     _r1 := _r1 f; _r2 := _r2 f; _t1 := _t1 f; _t2 := _t2 f;
     _ka := _ka f; _kv := _kv f; _kc := _kc f; _koa := _koa f;
     _kgs := _kgs f;
     _x_a := _x_a f; _a := _a f; _pow := _pow f; _L := _L f; _r := _r f |}.

Definition enable (f : Force num) : Force num := set_enabled f true.
Definition disable (f : Force num) : Force num := set_enabled f false.

(** The case labels of the [switch] in [apply]. *)
Definition kernel_cases : list nat :=
  [FORCE_TYPE.FORCE_SIMP_GRAVITY; FORCE_TYPE.FORCE_DRAG;
   FORCE_TYPE.FORCE_WIND; FORCE_TYPE.FORCE_SPRING;
   FORCE_TYPE.FORCE_FLOCK; FORCE_TYPE.FORCE_LINE_ATTRACTOR;
   FORCE_TYPE.FORCE_VORTEX; FORCE_TYPE.FORCE_UNIFORM_POINT_ATTRACTOR;
   FORCE_TYPE.FORCE_POINT_ATTRACTOR].

(** *** Reading the effect of a loop on one accumulator

    [sel k d] is component [k] of [d].  [accumulate] replays, on the single
    number stored in field [k] of particle [q], the additions a loop makes
    when the item [x] adds [delta x] to the particle [target x]. *)
Definition sel (k : nat) (d : vec3 num) : num :=
  match k with 0 => vx d | 1 => vy d | _ => vz d end.

Definition accumulate {item : Type} (target : item -> nat)
    (delta : item -> option (vec3 num)) (q k : nat) (xs : list item)
    (v : num) : num :=
  fold_left
    (fun v x =>
       if decide (target x = q) then
         match delta x with
         | Some d => fround (add v (sel k d))
         | None => v
         end
       else v)
    xs v.

(** [s[q*STATE_SIZE + w1] += d[0]; ... w2 ... d[1]; ... w3 ... d[2]]:
    [add_force] for the force fields, [add_velocity] for the velocity
    fields. *)
Definition add3 (G : Globals num) (w1 w2 w3 : nat) (s : Float32Array num)
    (q : nat) (d : vec3 num) : Float32Array num :=
  add_to (add_to (add_to s (ix G q w1) (vx d)) (ix G q w2) (vy d))
         (ix G q w3) (vz d).

(** Three fields of particle [q] read together; the force accumulator and
    the velocity of a particle as the buffer holds them. *)
Definition field3 (G : Globals num) (w1 w2 w3 : nat) (s : Float32Array num)
    (q : nat) : vec3 num :=
  Vec3 (rd s (ix G q w1)) (rd s (ix G q w2)) (rd s (ix G q w3)).

Definition force_acc (G : Globals num) (s : Float32Array num) (q : nat)
  : vec3 num :=
  field3 G (F_X G) (F_Y G) (F_Z G) s q.

Definition velocity_acc (G : Globals num) (s : Float32Array num) (q : nat)
  : vec3 num :=
  field3 G (V_X G) (V_Y G) (V_Z G) s q.

(** [[-Fx, -Fy, -Fz]], plain numbers. *)
Definition vneg (d : vec3 num) : vec3 num :=
  Vec3 (neg (vx d)) (neg (vy d)) (neg (vz d)).

(** Particle [q] lies inside the buffer. *)
Definition in_buffer (G : Globals num) (s : Float32Array num) (q : nat)
  : Prop :=
  ((q + 1) * STATE_SIZE G <= List.length s)%nat.

(** The target list [p] names the particle [q] exactly once. *)
Definition listed_once (p : list nat) (q : nat) : Prop :=
  exists l1 l2, p = l1 ++ q :: l2 /\ q ∉ l1 ++ l2.

(** Two buffers that hold the same numbers in every field other than
    [w1], [w2], [w3] of every particle. *)
Definition agree_off (G : Globals num) (w1 w2 w3 : nat)
    (s s' : Float32Array num) : Prop :=
  forall q o, (o < STATE_SIZE G)%nat -> o <> w1 -> o <> w2 -> o <> w3 ->
              s !! ix G q o = s' !! ix G q o.
End Methods.

(** ** Numbers read as real numbers *)

Module Ideal.
Definition Rltb (x y : R) : bool := if Rlt_dec x y then true else false.
Definition Rleb (x y : R) : bool := if Rle_dec x y then true else false.
Definition Reqb (x y : R) : bool := if Req_dec_T x y then true else false.

(** [Math.pow] where its value is a real number: [x^0 = 1], a positive
    base to any power, [0^y = 0] for [y > 0], a negative base to an integer
    power.  Where JavaScript answers [Infinity] or [NaN] there is no real
    number to give and [0] stands in. *)
Definition R_pow (x y : R) : R :=
  if Reqb y 0 then 1%R
  else if Rltb 0 x then Rpower x y
  else if Reqb x 0 then 0%R
  else if Reqb (IZR (Zfloor y)) y then powerRZ x (Zfloor y)
  else 0%R.

(** Exact arithmetic: no rounding.  [nan], a division by zero and the
    square root of a negative number have no real value; they get the
    values the real-number library gives them, so the real-number reading
    says nothing faithful about inputs that reach them. *)
#[global] Instance IdealArith : Arith R := {|
  lit := Q2R;
  nan := 0%R;
  Math_PI := PI;
  add := Rplus;
  sub := Rminus;
  mul := Rmult;
  div := Rdiv;
  neg := Ropp;
  ltb := Rltb;
  leb := Rleb;
  eqb := Reqb;
  Math_sqrt := sqrt;
  Math_abs := Rabs;
  Math_cos := cos;
  Math_sin := sin;
  Math_acos := acos;
  Math_pow := R_pow;
  Math_min := Rmin;
  Math_max := Rmax;
  fround := fun x => x
|}.

(** The Euclidean norm of a vector of real numbers. *)
Definition norm (v : vec3 R) : R :=
  sqrt (vx v * vx v + vy v * vy v + vz v * vz v)%R.

(** A layout with the ten fields in the order the spec lists them, and a
    flock of two whose goal is the origin. *)
Definition G0 : Globals R :=
  {| STATE_SIZE := 10;
     P_X := 0; P_Y := 1; P_Z := 2;
     V_X := 3; V_Y := 4; V_Z := 5;
     F_X := 6; F_Y := 7; F_Z := 8;
     MASS := 9;
     BOID_PARTICLE_COUNT := 2;
     boid_goal := Vec3 0%R 0%R 0%R |}.

Definition random0 : nat -> R := fun _ => 0%R.

(** One particle: position, velocity, force, mass. *)
Definition a_particle (px py pz vx vy vz fx fy fz m : R) : list R :=
  [px; py; pz; vx; vy; vz; fx; fy; fz; m].

(** The spring of the end-to-end example: [k = 1], natural length 1,
    [damp = 0], between particles 0 and 1. *)
Definition spring_1_1_0 : Force R :=
  init_spring (new_Force FORCE_TYPE.FORCE_SPRING [0; 1]) 1%R 1%R 0%R.

(** Particle 0 at the origin and particle 1 at [(2, 0, 0)], both at rest
    with no force accumulated and mass 1. *)
Definition two_particles : Float32Array R :=
  (a_particle 0 0 0 0 0 0 0 0 0 1 ++ a_particle 2 0 0 0 0 0 0 0 0 1)%R.

(** A stiffer spring between the same particles: [k = 100]. *)
Definition spring_100_1_0 : Force R :=
  init_spring (new_Force FORCE_TYPE.FORCE_SPRING [0; 1]) 100%R 1%R 0%R.

(** A force of the type that has no case in the dispatch. *)
Definition planetary_gravity : Force R :=
  new_Force FORCE_TYPE.FORCE_PLANETARY_GRAVITY [0; 1].

(** A flock of the two particles 0 and 1: inner radius 3, outer radius
    10, binocular angle 2, monocular angle 4, every weight 1. *)
Definition flock_of_two : Force R :=
  init_boid (new_Force FORCE_TYPE.FORCE_FLOCK [0; 1])
    3%R 10%R 2%R 4%R 1%R 1%R 1%R 1%R 1%R.

(** Boid 0 at the origin and boid 1 at [(2, 0, 0)], both flying along x
    with speed 1. *)
Definition two_boids : Float32Array R :=
  (a_particle 0 0 0 1 0 0 0 0 0 1 ++ a_particle 2 0 0 1 0 0 0 0 0 1)%R.

(** The same two boids 20 apart, beyond the outer radius. *)
Definition far_boids : Float32Array R :=
  (a_particle 0 0 0 1 0 0 0 0 0 1 ++ a_particle 20 0 0 1 0 0 0 0 0 1)%R.



(** A point attractor at the origin with the default exponent 2, range 10
    and strength 1, acting on particle 0; a particle at [(2, 0, 0)]. *)
Definition point_at_origin : Force R :=
  init_attractor (new_Force FORCE_TYPE.FORCE_POINT_ATTRACTOR [0])
    0%R 0%R 0%R 0%R 0%R 1%R None (Some 10%R) (Some 1%R).

Definition one_particle_on_x : Float32Array R :=
  (a_particle 2 0 0 0 0 0 0 0 0 1)%R.

(** A vortex through the origin along x, exponent 2, length 10, radius 1,
    acting on particle 0; a particle at [(1, 0, 0)], on the axis. *)
Definition vortex_along_x : Force R :=
  init_attractor (new_Force FORCE_TYPE.FORCE_VORTEX [0])
    0%R 0%R 0%R 1%R 0%R 0%R (Some 2%R) (Some 10%R) (Some 1%R).

Definition on_the_axis : Float32Array R :=
  (a_particle 1 0 0 0 0 0 0 0 0 1)%R.

(** Colours, and the colours between two of them. *)
Definition red : R * R * R := (1, 0, 0)%R.
Definition green : R * R * R := (0, 1, 0)%R.
Definition blue : R * R * R := (0, 0, 1)%R.

Definition on_gradient (a b c : R * R * R) : Prop :=
  exists t : R,
    (0 <= t <= 1)%R
    /\ c = ((1 - t) * a.1.1 + t * b.1.1,
            (1 - t) * a.1.2 + t * b.1.2,
            (1 - t) * a.2 + t * b.2)%R.
End Ideal.

(** ** Kernels that only add to three fields of their targets *)

Section Additive.
Context {num : Type} `{Arith num}.

(** [K] changes an element only by a function of the element itself that
    is fixed by what the buffer holds outside the fields [w1], [w2], [w3];
    it changes no element of a particle outside [T] and no element of
    another field. *)
Definition additive_on (G : Globals num) (w1 w2 w3 : nat)
    (K : Float32Array num -> Float32Array num) (T : list nat) : Prop :=
  forall s0, exists psi : nat -> num -> num,
    (forall s i, agree_off G w1 w2 w3 s0 s -> K s !! i = psi i <$> s !! i)
    /\ (forall i v, i / STATE_SIZE G ∉ T -> psi i v = v)
    /\ (forall i v, i mod STATE_SIZE G ∉ [w1; w2; w3] -> psi i v = v).

(** The three fields a force of type [type] writes: the velocity for a
    vortex, the force accumulator for every other type. *)
Definition written_fields (G : Globals num) (type : nat) : list nat :=
  if type =? FORCE_TYPE.FORCE_VORTEX then [V_X G; V_Y G; V_Z G]
  else [F_X G; F_Y G; F_Z G].
End Additive.

(** ** VBOBox: the metadata its constructor derives *)

From Stdlib Require String.

Section VBOBox.
Context {num : Type} `{Arith num}.

(** The [length] of an array, as a number. *)
Definition number_of_nat (n : nat) : num := lit (inject_Z (Z.of_nat n)).

(** One entry of [this.attributes]. *)
Record Attribute : Type := {
  name : String.string;
  count : num;
  offset : num;
  location : String.string
}.

(** The fields the constructor computes from [vertex_array],
    [attribute_count] and [attributes].  [FSIZE] is
    [vertex_array.BYTES_PER_ELEMENT], 4 for a [Float32Array]. *)
Record VBOBox : Type := {
  _vbo : Float32Array num;
  vertex_count : num;
  FSIZE : num;
  vbo_size : num;
  vbo_stride : num;
  attributes : list Attribute
}.

(** [attributes] is given as the list of its keys with their values
    [[offset, count]], in the order [for ... in] visits them. *)
Definition new_VBOBox (vertex_array : Float32Array num)
    (attribute_count : num)
    (attributes : list (String.string * (num * num))) : VBOBox :=
  let vertex_count :=
    div (number_of_nat (List.length vertex_array)) attribute_count in
  let FSIZE := lit 4 in
  let vbo_size := mul (number_of_nat (List.length vertex_array)) FSIZE in
  {| _vbo := vertex_array;
     vertex_count := vertex_count;
     FSIZE := FSIZE;
     vbo_size := vbo_size;
     vbo_stride := div vbo_size vertex_count;
     attributes :=
       map (fun a => {| name := a.1;
                        count := snd a.2;
                        offset := mul (fst a.2) FSIZE;
                        location := String.EmptyString |})
           attributes |}.
End VBOBox.

Arguments Attribute : clear implicits.
Arguments VBOBox : clear implicits.

(** ** More forces for the real-number reading *)

Module IdealMore.
(** Gravity of magnitude [-9.8] on particles 0 and 1. *)
Definition gravity : Force R :=
  init_vectored (new_Force FORCE_TYPE.FORCE_SIMP_GRAVITY [0; 1])
    (Some (-9.8)%R) None None None.

(** Drag of magnitude 1/2 along the three axes on particle 0. *)
Definition drag : Force R :=
  init_vectored (new_Force FORCE_TYPE.FORCE_DRAG [0])
    (Some (1 / 2)%R) None None None.

(** Wind of magnitude 3 along x on particles 1 and 0, in that order. *)
Definition wind : Force R :=
  init_vectored (new_Force FORCE_TYPE.FORCE_WIND [1; 0])
    (Some 3%R) (Some 1%R) (Some 0%R) (Some 0%R).

(** Random draws, all 1/4. *)
Definition random_quarter : nat -> R := fun _ => (1 / 4)%R.

(** A uniform point attractor at [(1, 1, 1)] on particle 1. *)
Definition uniform_attractor : Force R :=
  init_attractor (new_Force FORCE_TYPE.FORCE_UNIFORM_POINT_ATTRACTOR [1])
    1%R 1%R 1%R 0%R 0%R 1%R None None None.

(** A spring of natural length 2 between particles 0 and 1. *)
Definition spring_at_rest : Force R :=
  init_spring (new_Force FORCE_TYPE.FORCE_SPRING [0; 1]) 5%R 2%R 0%R.

(** Particle 0 moving with velocity [(1, 2, 3)], particle 1 at rest at
    [(2, 0, 0)]. *)
Definition moving : Float32Array R :=
  (Ideal.a_particle 0 0 0 1 2 3 0 0 0 1
   ++ Ideal.a_particle 2 0 0 0 0 0 0 0 0 1)%R.
End IdealMore.

(** * Properties *)

(** ** The buffer *)

Section BufferFacts.
Context {num : Type} `{Arith num}.
Implicit Types (s : Float32Array num) (i j : nat) (v : num).

Lemma lookup_add_to_ne s i j v : i <> j -> add_to s i v !! j = s !! j.
Proof. intros Hne. unfold add_to, wr. by apply list_lookup_insert_ne. Qed.

Lemma lookup_add_to_eq s i v :
  add_to s i v !! i = (fun x => fround (add x v)) <$> s !! i.
Proof.
  unfold add_to, wr, rd. destruct (s !! i) as [x|] eqn:E; simpl.
  - apply list_lookup_insert_eq. by eapply lookup_lt_Some.
  - rewrite list_insert_ge; [done|]. by apply lookup_ge_None.
Qed.

Lemma length_add_to s i v : List.length (add_to s i v) = List.length s.
Proof. unfold add_to, wr. apply length_insert. Qed.

Lemma rd_lookup s s' i : s !! i = s' !! i -> rd s i = rd s' i.
Proof. unfold rd. by intros ->. Qed.

Lemma rd_in_range s i :
  (i < List.length s)%nat -> s !! i = Some (rd s i).
Proof.
  intros Hi. unfold rd. destruct (s !! i) as [x|] eqn:E; [done|].
  apply lookup_ge_None in E. lia.
Qed.

Lemma rd_fmap s s' i (g : num -> num) :
  (i < List.length s)%nat -> s' !! i = g <$> s !! i -> rd s' i = g (rd s i).
Proof.
  intros Hi E. unfold rd at 1. rewrite E, (rd_in_range s i Hi). done.
Qed.
End BufferFacts.

(** ** The layout *)

Section LayoutFacts.
Context {num : Type} (G : Globals num).

Lemma ix_inj q q' o o' :
  (o < STATE_SIZE G)%nat -> (o' < STATE_SIZE G)%nat ->
  ix G q o = ix G q' o' -> q = q' /\ o = o'.
Proof.
  unfold ix. intros Ho Ho' E.
  assert (q = q') as -> by nia. split; [done | lia].
Qed.

Lemma ix_ne q q' o o' :
  (o < STATE_SIZE G)%nat -> (o' < STATE_SIZE G)%nat ->
  q <> q' \/ o <> o' -> ix G q o <> ix G q' o'.
Proof.
  intros Ho Ho' Hne E. destruct (ix_inj _ _ _ _ Ho Ho' E). tauto.
Qed.

Lemma ix_in_range q o n :
  (o < STATE_SIZE G)%nat -> ((q + 1) * STATE_SIZE G <= n)%nat ->
  (ix G q o < n)%nat.
Proof. unfold ix. nia. Qed.
End LayoutFacts.

(** ** Loops that add a vector to three fields of their target particle *)

Section Loop.
Context {num : Type} `{Arith num}.
Variable G : Globals num.
Variables w1 w2 w3 : nat.
Hypothesis w_lt :
  (w1 < STATE_SIZE G)%nat /\ (w2 < STATE_SIZE G)%nat
  /\ (w3 < STATE_SIZE G)%nat.
Hypothesis w_ne : w1 <> w2 /\ w1 <> w3 /\ w2 <> w3.

Local Abbreviation agree := (agree_off G w1 w2 w3).
Local Abbreviation add3' := (add3 G w1 w2 w3).

Lemma agree_off_refl s : agree s s.
Proof using Type. by intros q o _ _ _ _. Qed.

Lemma agree_off_sym s s' : agree s s' -> agree s' s.
Proof using Type. intros E q o ????. symmetry. by apply E. Qed.

Lemma agree_off_trans s s' s'' : agree s s' -> agree s' s'' -> agree s s''.
Proof using Type.
  intros E E' q o ????. rewrite E by done. by apply E'.
Qed.

Lemma agree_off_add3 s q d : agree s (add3' s q d).
Proof using w_lt.
  intros q' o Ho H1 H2 H3. unfold add3.
  destruct w_lt as (? & ? & ?).
  rewrite !lookup_add_to_ne; [done | apply ix_ne; auto ..].
Qed.

Lemma lookup_add3 s q d q' k w :
  [w1; w2; w3] !! k = Some w ->
  add3' s q d !! ix G q' w =
    if decide (q = q') then
      (fun v => fround (add v (sel k d))) <$> s !! ix G q' w
    else s !! ix G q' w.
Proof using w_lt w_ne.
  destruct w_lt as (? & ? & ?), w_ne as (? & ? & ?).
  intros Hk. unfold add3.
  destruct (decide (q = q')) as [->|Hq].
  - destruct k as [|[|[|k]]]; simpl in Hk; try discriminate;
      injection Hk as <-;
      repeat first
        [ rewrite lookup_add_to_ne by (apply ix_ne; auto)
        | rewrite lookup_add_to_eq ];
      reflexivity.
  - assert (w < STATE_SIZE G)%nat.
    { destruct k as [|[|[|k]]]; simpl in Hk; try discriminate;
        injection Hk as <-; done. }
    rewrite !lookup_add_to_ne; [done | apply ix_ne; auto ..].
Qed.

Variable item : Type.
Variable target : item -> nat.
Variable body : Float32Array num -> item -> Float32Array num.
Variable delta : Float32Array num -> item -> option (vec3 num).
Hypothesis body_spec : forall s x,
  body s x = match delta s x with
             | Some d => add3' s (target x) d
             | None => s
             end.
Hypothesis delta_ext : forall s s' x, agree s s' -> delta s x = delta s' x.

Lemma agree_off_body s x : agree s (body s x).
Proof using w_lt body_spec.
  rewrite body_spec. destruct (delta s x).
  - apply agree_off_add3.
  - apply agree_off_refl.
Qed.

Lemma loop_agree xs : forall s, agree s (fold_left body xs s).
Proof using w_lt body_spec.
  induction xs as [|x xs IH]; intros s; simpl.
  - apply agree_off_refl.
  - eapply agree_off_trans; [apply agree_off_body | apply IH].
Qed.

(** The loop, seen from one written field of one particle. *)
Lemma loop_lookup xs : forall s0 s q k w,
  agree s0 s -> [w1; w2; w3] !! k = Some w ->
  fold_left body xs s !! ix G q w =
    accumulate target (delta s0) q k xs <$> s !! ix G q w.
Proof using w_lt w_ne body_spec delta_ext.
  induction xs as [|x xs IH]; intros s0 s q k w Hag Hk; simpl.
  - unfold accumulate; simpl. by destruct (s !! ix G q w).
  - rewrite (IH s0 (body s x) q k w); [|
      eapply agree_off_trans; [exact Hag | apply agree_off_body] | done].
    rewrite body_spec, <- (delta_ext s0 s x Hag).
    unfold accumulate; simpl.
    destruct (delta s0 x) as [d|].
    + rewrite (lookup_add3 _ _ _ _ k w Hk).
      destruct (decide (target x = q)); [|done].
      by destruct (s !! ix G q w).
    + by destruct (decide (target x = q)).
Qed.
End Loop.

(** What [accumulate] gives in the cases met below. *)
Section Accumulate.
Context {num : Type} `{Arith num} {item : Type}.
Variable target : item -> nat.
Variable delta : item -> option (vec3 num).

(** No item aimed at [q] adds anything. *)
Lemma accumulate_none q k xs v :
  (forall x, x ∈ xs -> target x = q -> delta x = None) ->
  accumulate target delta q k xs v = v.
Proof.
  unfold accumulate. revert v.
  induction xs as [|x xs IH]; intros v Hx; simpl; [done|].
  rewrite IH.
  - destruct (decide (target x = q)) as [E|]; [|done].
    rewrite (Hx x); [done | by left | done].
  - intros y Hy. apply Hx. by right.
Qed.

(** Every item aimed at [q] adds a vector that leaves [v] as it is. *)
Lemma accumulate_neutral q k xs v :
  (forall x d, x ∈ xs -> target x = q -> delta x = Some d ->
               fround (add v (sel k d)) = v) ->
  accumulate target delta q k xs v = v.
Proof.
  unfold accumulate.
  induction xs as [|x xs IH]; intros Hx; simpl; [done|].
  destruct (decide (target x = q)) as [E|].
  - destruct (delta x) as [d|] eqn:Ed.
    + rewrite (Hx x d); [|by left|done|done].
      apply IH. intros y d' Hy. apply Hx. by right.
    + apply IH. intros y d' Hy. apply Hx. by right.
  - apply IH. intros y d' Hy. apply Hx. by right.
Qed.

(** No item is aimed at [q]. *)
Lemma accumulate_absent q k xs v :
  (forall x, x ∈ xs -> target x <> q) ->
  accumulate target delta q k xs v = v.
Proof.
  unfold accumulate. revert v.
  induction xs as [|x xs IH]; intros v Hx; simpl; [done|].
  destruct (decide (target x = q)) as [E|].
  - exfalso. eapply Hx; [by left | done].
  - apply IH. intros y Hy. apply Hx. by right.
Qed.

(** Exactly one item is aimed at [q]. *)
Lemma accumulate_once q k l1 x l2 v :
  target x = q ->
  (forall y, y ∈ l1 ++ l2 -> target y <> q) ->
  accumulate target delta q k (l1 ++ x :: l2) v =
    match delta x with
    | Some d => fround (add v (sel k d))
    | None => v
    end.
Proof.
  intros Hx Hy.
  assert (forall l w, accumulate target delta q k (l1 ++ l) w
                      = accumulate target delta q k l w) as Happ.
  { intros l w. unfold accumulate. rewrite fold_left_app.
    f_equal. apply accumulate_absent.
    intros y Hin. apply Hy. apply elem_of_app. by left. }
  rewrite Happ. unfold accumulate at 1. simpl.
  rewrite decide_True by done.
  apply accumulate_absent.
  intros y Hin. apply Hy. apply elem_of_app. by right.
Qed.
End Accumulate.

(** ** Dispatch *)

Section Dispatch.
Context {num : Type} `{Arith num}.
Variable G : Globals num.
Variable random : nat -> num.

(** C2.  A disabled force is a no-op: whatever its variant and whatever
    the state buffer, [apply] returns the buffer it was given, every
    element unchanged, and prints nothing. *)
Theorem apply_disabled_noop (f : Force num) (s : Float32Array num) :
  _enabled f = false ->
  apply G f random s = s /\ apply_log G f random s = (s, []).
Proof.
  intros Hoff. unfold apply, apply_log. rewrite Hoff. by simpl.
Qed.

(** C8.  An enabled force whose type tag is none of the case labels of the
    dispatch (FORCE_PLANETARY_GRAVITY, 5, is one) falls to the default
    branch: the message is logged and the state buffer is returned with
    every element unchanged. *)
Theorem apply_unimplemented_type (f : Force num) (s : Float32Array num) :
  _enabled f = true ->
  _type f ∉ kernel_cases ->
  apply_log G f random s = (s, [Unimplemented_force_type (_type f)])
  /\ apply G f random s = s.
Proof.
  intros Hon Hno. unfold kernel_cases in Hno.
  repeat (apply not_elem_of_cons in Hno as [? Hno]).
  assert (apply_log G f random s
          = (s, [Unimplemented_force_type (_type f)])) as E.
  { unfold apply_log. rewrite Hon. simpl negb. cbv iota.
    repeat (rewrite (proj2 (Nat.eqb_neq _ _)) by done). done. }
  split; [exact E | unfold apply; by rewrite E].
Qed.
End Dispatch.

Lemma apply_disabled_noop_witness :
_enabled (disable Ideal.spring_1_1_0) = false
/\ apply Ideal.G0 (disable Ideal.spring_1_1_0) Ideal.random0
     Ideal.two_particles = Ideal.two_particles.
Proof.
split; [reflexivity|].
apply (apply_disabled_noop Ideal.G0 Ideal.random0
         (disable Ideal.spring_1_1_0) Ideal.two_particles).
reflexivity.
Defined.

Lemma planetary_gravity_has_no_case :
FORCE_TYPE.FORCE_PLANETARY_GRAVITY ∉ kernel_cases.
Proof.
unfold kernel_cases. intros Hin.
repeat (apply elem_of_cons in Hin as [Hin|Hin]; [discriminate|]).
by apply elem_of_nil in Hin.
Qed.

Lemma apply_unimplemented_type_witness :
_type Ideal.planetary_gravity = 5
/\ apply_log Ideal.G0 Ideal.planetary_gravity Ideal.random0
     Ideal.two_particles
   = (Ideal.two_particles, [Unimplemented_force_type 5]).
Proof.
split; [reflexivity|].
apply (apply_unimplemented_type Ideal.G0 Ideal.random0
         Ideal.planetary_gravity Ideal.two_particles).
- reflexivity.
- exact planetary_gravity_has_no_case.
Defined.

(** ** What the layout invariant gives *)

Section LayoutOk.
Context {num : Type} `{Arith num}.
Variable G : Globals num.
Hypothesis Hok : layout_ok G.

Lemma layout_bounds :
  Forall (fun o => (o < STATE_SIZE G)%nat) (fields G).
Proof using Hok. apply Hok. Qed.

Lemma layout_F_lt :
  (F_X G < STATE_SIZE G)%nat /\ (F_Y G < STATE_SIZE G)%nat
  /\ (F_Z G < STATE_SIZE G)%nat.
Proof using Hok.
  pose proof layout_bounds as Hb. unfold fields in Hb.
  repeat (apply Forall_cons in Hb as [? Hb]). done.
Qed.

Lemma layout_V_lt :
  (V_X G < STATE_SIZE G)%nat /\ (V_Y G < STATE_SIZE G)%nat
  /\ (V_Z G < STATE_SIZE G)%nat.
Proof using Hok.
  pose proof layout_bounds as Hb. unfold fields in Hb.
  repeat (apply Forall_cons in Hb as [? Hb]). done.
Qed.

Lemma layout_P_lt :
  (P_X G < STATE_SIZE G)%nat /\ (P_Y G < STATE_SIZE G)%nat
  /\ (P_Z G < STATE_SIZE G)%nat.
Proof using Hok.
  pose proof layout_bounds as Hb. unfold fields in Hb.
  repeat (apply Forall_cons in Hb as [? Hb]). done.
Qed.

(** The offsets are pairwise distinct. *)
Lemma layout_distinct i j a b :
  fields G !! i = Some a -> fields G !! j = Some b -> i <> j -> a <> b.
Proof using Hok.
  intros Hi Hj Hne E. subst b. apply Hne.
  destruct Hok as [Hnd _]. eapply NoDup_lookup; eauto.
Qed.

Lemma layout_F_ne : F_X G <> F_Y G /\ F_X G <> F_Z G /\ F_Y G <> F_Z G.
Proof using Hok.
  repeat split.
  - by apply (layout_distinct 6 7).
  - by apply (layout_distinct 6 8).
  - by apply (layout_distinct 7 8).
Qed.

Lemma layout_V_ne : V_X G <> V_Y G /\ V_X G <> V_Z G /\ V_Y G <> V_Z G.
Proof using Hok.
  repeat split.
  - by apply (layout_distinct 3 4).
  - by apply (layout_distinct 3 5).
  - by apply (layout_distinct 4 5).
Qed.

(** Position and velocity are read from fields no force kernel writes. *)
Lemma position_agree_F s s' q :
  agree_off G (F_X G) (F_Y G) (F_Z G) s s' ->
  position G s q = position G s' q.
Proof using Hok.
  intros E. destruct layout_P_lt as (? & ? & ?).
  unfold position.
  rewrite (rd_lookup s s' (ix G q (P_X G))),
          (rd_lookup s s' (ix G q (P_Y G))),
          (rd_lookup s s' (ix G q (P_Z G))); [done | apply E ..];
    first [ done
          | by apply (layout_distinct 0 6) | by apply (layout_distinct 0 7)
          | by apply (layout_distinct 0 8) | by apply (layout_distinct 1 6)
          | by apply (layout_distinct 1 7) | by apply (layout_distinct 1 8)
          | by apply (layout_distinct 2 6) | by apply (layout_distinct 2 7)
          | by apply (layout_distinct 2 8) ].
Qed.

Lemma velocity_agree_F s s' q :
  agree_off G (F_X G) (F_Y G) (F_Z G) s s' ->
  velocity G s q = velocity G s' q.
Proof using Hok.
  intros E. destruct layout_V_lt as (? & ? & ?).
  unfold velocity.
  rewrite (rd_lookup s s' (ix G q (V_X G))),
          (rd_lookup s s' (ix G q (V_Y G))),
          (rd_lookup s s' (ix G q (V_Z G))); [done | apply E ..];
    first [ done
          | by apply (layout_distinct 3 6) | by apply (layout_distinct 3 7)
          | by apply (layout_distinct 3 8) | by apply (layout_distinct 4 6)
          | by apply (layout_distinct 4 7) | by apply (layout_distinct 4 8)
          | by apply (layout_distinct 5 6) | by apply (layout_distinct 5 7)
          | by apply (layout_distinct 5 8) ].
Qed.

Lemma position_agree_V s s' q :
  agree_off G (V_X G) (V_Y G) (V_Z G) s s' ->
  position G s q = position G s' q.
Proof using Hok.
  intros E. destruct layout_P_lt as (? & ? & ?).
  unfold position.
  rewrite (rd_lookup s s' (ix G q (P_X G))),
          (rd_lookup s s' (ix G q (P_Y G))),
          (rd_lookup s s' (ix G q (P_Z G))); [done | apply E ..];
    first [ done
          | by apply (layout_distinct 0 3) | by apply (layout_distinct 0 4)
          | by apply (layout_distinct 0 5) | by apply (layout_distinct 1 3)
          | by apply (layout_distinct 1 4) | by apply (layout_distinct 1 5)
          | by apply (layout_distinct 2 3) | by apply (layout_distinct 2 4)
          | by apply (layout_distinct 2 5) ].
Qed.
End LayoutOk.

(** ** Three fields of a particle after [add3] and after a loop *)

Section Field3.
Context {num : Type} `{Arith num}.
Variable G : Globals num.
Variables w1 w2 w3 : nat.
Hypothesis w_lt :
  (w1 < STATE_SIZE G)%nat /\ (w2 < STATE_SIZE G)%nat
  /\ (w3 < STATE_SIZE G)%nat.
Hypothesis w_ne : w1 <> w2 /\ w1 <> w3 /\ w2 <> w3.

Lemma in_buffer_ix s q w :
  in_buffer G s q -> (w < STATE_SIZE G)%nat ->
  (ix G q w < List.length s)%nat.
Proof using Type. intros Hq Hw. by apply ix_in_range. Qed.

Lemma length_add3 s q d :
  List.length (add3 G w1 w2 w3 s q d) = List.length s.
Proof using Type. unfold add3. by rewrite !length_add_to. Qed.

Lemma field3_add3_same s q d :
  in_buffer G s q ->
  field3 G w1 w2 w3 (add3 G w1 w2 w3 s q d) q
  = glMatrix.vadd (field3 G w1 w2 w3 s q) d.
Proof using w_lt w_ne.
  intros Hq. destruct w_lt as (? & ? & ?).
  unfold field3, glMatrix.vadd. cbn [vx vy vz].
  f_equal.
  - apply (rd_fmap s _ _ (fun v => fround (add v (vx d))));
      [by apply in_buffer_ix|].
    rewrite (lookup_add3 G w1 w2 w3 w_lt w_ne s q d q 0 w1 eq_refl).
    by rewrite decide_True.
  - apply (rd_fmap s _ _ (fun v => fround (add v (vy d))));
      [by apply in_buffer_ix|].
    rewrite (lookup_add3 G w1 w2 w3 w_lt w_ne s q d q 1 w2 eq_refl).
    by rewrite decide_True.
  - apply (rd_fmap s _ _ (fun v => fround (add v (vz d))));
      [by apply in_buffer_ix|].
    rewrite (lookup_add3 G w1 w2 w3 w_lt w_ne s q d q 2 w3 eq_refl).
    by rewrite decide_True.
Qed.

Lemma field3_add3_other s q d q' :
  q <> q' ->
  field3 G w1 w2 w3 (add3 G w1 w2 w3 s q d) q' = field3 G w1 w2 w3 s q'.
Proof using w_lt w_ne.
  intros Hne. unfold field3. f_equal; apply rd_lookup.
  - rewrite (lookup_add3 G w1 w2 w3 w_lt w_ne s q d q' 0 w1 eq_refl).
    by rewrite decide_False.
  - rewrite (lookup_add3 G w1 w2 w3 w_lt w_ne s q d q' 1 w2 eq_refl).
    by rewrite decide_False.
  - rewrite (lookup_add3 G w1 w2 w3 w_lt w_ne s q d q' 2 w3 eq_refl).
    by rewrite decide_False.
Qed.

Variable item : Type.
Variable target : item -> nat.
Variable body : Float32Array num -> item -> Float32Array num.
Variable delta : Float32Array num -> item -> option (vec3 num).
Hypothesis body_spec : forall s x,
  body s x = match delta s x with
             | Some d => add3 G w1 w2 w3 s (target x) d
             | None => s
             end.
Hypothesis delta_ext : forall s s' x,
  agree_off G w1 w2 w3 s s' -> delta s x = delta s' x.

(** The loop leaves the three fields of [q] alone when every item aimed at
    [q] adds nothing, or adds a vector that changes nothing. *)
Lemma loop_field3_unchanged xs s q :
  (forall x d v k, x ∈ xs -> target x = q -> delta s x = Some d ->
                   fround (add v (sel k d)) = v) ->
  field3 G w1 w2 w3 (fold_left body xs s) q = field3 G w1 w2 w3 s q.
Proof using w_lt w_ne body_spec delta_ext.
  intros Hx.
  assert (forall k w, [w1; w2; w3] !! k = Some w ->
            rd (fold_left body xs s) (ix G q w) = rd s (ix G q w)) as E.
  { intros k w Hk. apply rd_lookup.
    rewrite (loop_lookup G w1 w2 w3 w_lt w_ne item target body delta
               body_spec delta_ext xs s s q k w (agree_off_refl _ _ _ _ _)
               Hk).
    destruct (s !! ix G q w) as [v|]; [|done]. simpl. f_equal.
    apply accumulate_neutral. intros x d Hin Ht Hd. by eapply Hx. }
  unfold field3. f_equal; [apply (E 0) | apply (E 1) | apply (E 2)]; done.
Qed.

(** The loop adds [d] once when exactly one item is aimed at [q]. *)
Lemma loop_field3_once l1 x l2 s d :
  in_buffer G s (target x) ->
  (forall y, y ∈ l1 ++ l2 -> target y <> target x) ->
  delta s x = Some d ->
  field3 G w1 w2 w3 (fold_left body (l1 ++ x :: l2) s) (target x)
  = glMatrix.vadd (field3 G w1 w2 w3 s (target x)) d.
Proof using w_lt w_ne body_spec delta_ext.
  intros Hq Hy Hd. destruct w_lt as (? & ? & ?).
  assert (forall k w, [w1; w2; w3] !! k = Some w ->
            rd (fold_left body (l1 ++ x :: l2) s) (ix G (target x) w)
            = fround (add (rd s (ix G (target x) w)) (sel k d))) as E.
  { intros k w Hk.
    assert (w < STATE_SIZE G)%nat.
    { destruct k as [|[|[|k]]]; simpl in Hk; try discriminate;
        injection Hk as <-; done. }
    apply (rd_fmap s _ _ (fun v => fround (add v (sel k d))));
      [by apply in_buffer_ix|].
    rewrite (loop_lookup G w1 w2 w3 w_lt w_ne item target body delta
               body_spec delta_ext _ s s _ k w (agree_off_refl _ _ _ _ _)
               Hk).
    destruct (s !! ix G (target x) w) as [v|]; [|done]. simpl. f_equal.
    rewrite accumulate_once by done. by rewrite Hd. }
  unfold field3, glMatrix.vadd. cbn [vx vy vz].
  f_equal; [apply (E 0) | apply (E 1) | apply (E 2)]; done.
Qed.
End Field3.

(** ** FORCE_SPRING *)

Section Spring.
Context {num : Type} `{Arith num}.
Variable G : Globals num.
Variable random : nat -> num.

Lemma add_force_add3 s q d :
  add_force G s q d = add3 G (F_X G) (F_Y G) (F_Z G) s q d.
Proof. reflexivity. Qed.

Lemma add_velocity_add3 s q d :
  add_velocity G s q d = add3 G (V_X G) (V_Y G) (V_Z G) s q d.
Proof. reflexivity. Qed.

Lemma apply_spring_writes (f : Force num) s p0 p1 :
  _p f !! 0 = Some p0 -> _p f !! 1 = Some p1 ->
  apply_spring G f s
  = add_force G (add_force G s p0 (spring_F G f s)) p1
      (vneg (spring_F G f s)).
Proof.
  intros H0 H1. unfold apply_spring. rewrite H0, H1. reflexivity.
Qed.

Lemma apply_is_spring (f : Force num) s :
  _enabled f = true -> _type f = FORCE_TYPE.FORCE_SPRING ->
  apply G f random s = apply_spring G f s.
Proof.
  intros Hon Hty. unfold apply, apply_log. rewrite Hon, Hty. reflexivity.
Qed.

(** The force accumulators of the two ends after the kernel. *)
Lemma apply_spring_accumulators (f : Force num) s p0 p1 :
  layout_ok G ->
  _p f !! 0 = Some p0 -> _p f !! 1 = Some p1 -> p0 <> p1 ->
  in_buffer G s p0 -> in_buffer G s p1 ->
  force_acc G (apply_spring G f s) p0
  = glMatrix.vadd (force_acc G s p0) (spring_F G f s)
  /\ force_acc G (apply_spring G f s) p1
     = glMatrix.vadd (force_acc G s p1) (vneg (spring_F G f s)).
Proof.
  intros Hok H0 H1 Hne Hb0 Hb1.
  pose proof (layout_F_lt G Hok) as Hlt.
  pose proof (layout_F_ne G Hok) as Hnq.
  rewrite (apply_spring_writes f s p0 p1 H0 H1).
  unfold force_acc. rewrite !add_force_add3. split.
  - rewrite (field3_add3_other G _ _ _ Hlt Hnq) by done.
    by rewrite (field3_add3_same G _ _ _ Hlt Hnq).
  - rewrite (field3_add3_same G _ _ _ Hlt Hnq).
    + by rewrite (field3_add3_other G _ _ _ Hlt Hnq).
    + unfold in_buffer. by rewrite length_add3.
Qed.

(** C3.  Newton's third law for an enabled spring with targets [p0] and
    [p1]: the kernel computes one vector [F] (each component already
    limited to 12) and its six statements add [F] to the force accumulator
    of [p0] and the componentwise negation of [F] to that of [p1]; so the
    two added vectors are exact negations whatever the positions and
    whether or not the limit is reached.  For two distinct particles
    inside the buffer the accumulators end as stated. *)
Theorem spring_newton_third_law (f : Force num) (s : Float32Array num)
    (p0 p1 : nat) :
  layout_ok G ->
  _enabled f = true -> _type f = FORCE_TYPE.FORCE_SPRING ->
  _p f !! 0 = Some p0 -> _p f !! 1 = Some p1 ->
  let F := spring_F G f s in
  let s' := apply G f random s in
  s' = add_force G (add_force G s p0 F) p1 (vneg F)
  /\ (p0 <> p1 -> in_buffer G s p0 -> in_buffer G s p1 ->
      force_acc G s' p0 = glMatrix.vadd (force_acc G s p0) F
      /\ force_acc G s' p1 = glMatrix.vadd (force_acc G s p1) (vneg F)).
Proof.
  intros Hok Hon Hty H0 H1 F s'. subst F s'.
  rewrite (apply_is_spring f s Hon Hty). split.
  - by apply apply_spring_writes.
  - intros Hne Hb0 Hb1. by apply apply_spring_accumulators.
Qed.
End Spring.

(** ** Real arithmetic *)

Module IdealFacts.
Import Ideal.
Local Open Scope R_scope.

Lemma Rltb_true x y : x < y -> Rltb x y = true.
Proof. intros Hlt. unfold Rltb. by destruct (Rlt_dec x y). Qed.

Lemma Rltb_false x y : ~ x < y -> Rltb x y = false.
Proof. intros Hlt. unfold Rltb. by destruct (Rlt_dec x y). Qed.

Lemma Rleb_true x y : x <= y -> Rleb x y = true.
Proof. intros Hle. unfold Rleb. by destruct (Rle_dec x y). Qed.

Lemma Rleb_false x y : ~ x <= y -> Rleb x y = false.
Proof. intros Hle. unfold Rleb. by destruct (Rle_dec x y). Qed.

Lemma Reqb_true x y : x = y -> Reqb x y = true.
Proof. intros E. unfold Reqb. by destruct (Req_dec_T x y). Qed.

Lemma Reqb_false x y : x <> y -> Reqb x y = false.
Proof. intros E. unfold Reqb. by destruct (Req_dec_T x y). Qed.

Lemma Rltb_spec x y : Rltb x y = true <-> x < y.
Proof. unfold Rltb. destruct (Rlt_dec x y); split; done. Qed.

Lemma Rleb_spec x y : Rleb x y = true <-> x <= y.
Proof. unfold Rleb. destruct (Rle_dec x y); split; done. Qed.

Lemma Q2R_Z (z : Z) : Q2R (inject_Z z) = IZR z.
Proof. unfold Q2R, inject_Z. simpl. lra. Qed.

(** Squaring with [Math.pow]. *)
Lemma R_pow_2 x : R_pow x (Q2R 2) = x * x.
Proof.
  change (Q2R 2) with (Q2R (inject_Z 2)). rewrite Q2R_Z.
  unfold R_pow. rewrite Reqb_false by lra.
  destruct (Rlt_dec 0 x) as [Hpos|Hnpos].
  - rewrite Rltb_true by done.
    change 2 with (INR 2). rewrite Rpower_pow by done. simpl. lra.
  - rewrite Rltb_false by done.
    destruct (Req_dec_T x 0) as [->|Hnz].
    + rewrite Reqb_true by done. lra.
    + rewrite Reqb_false by done.
      rewrite ZfloorZ, Reqb_true by done. simpl. lra.
Qed.



(** [Math.pow] of a positive base is positive. *)
Lemma R_pow_pos x y : 0 < x -> 0 < R_pow x y.
Proof.
  intros Hx. unfold R_pow.
  destruct (Reqb y 0); [lra|].
  rewrite Rltb_true by done. unfold Rpower. apply exp_pos.
Qed.


Lemma norm_length v : glMatrix.length v = norm v.
Proof. reflexivity. Qed.

(** The norm of a scaled vector. *)
Lemma norm_scale v c : norm (glMatrix.scale v c) = Rabs c * norm v.
Proof.
  unfold norm, glMatrix.scale. cbn [vx vy vz fround mul IdealArith].
  replace (vx v * c * (vx v * c) + vy v * c * (vy v * c)
           + vz v * c * (vz v * c))
    with (c * c * (vx v * vx v + vy v * vy v + vz v * vz v)) by ring.
  rewrite sqrt_mult_alt by nra.
  f_equal. rewrite <- (sqrt_Rsqr_abs c). reflexivity.
Qed.

End IdealFacts.

(** ** The end-to-end example of the spring *)

Module SpringExample.
Import Ideal IdealFacts.
Local Open Scope R_scope.

Lemma layout_ok_G0 : layout_ok G0.
Proof.
  split.
  - unfold fields, G0. cbn. compute_done.
  - unfold fields, G0. cbn. repeat constructor.
Qed.

Lemma two_particles_in_buffer q : (q < 2)%nat -> in_buffer G0 two_particles q.
Proof. intros Hq. unfold in_buffer. cbn. lia. Qed.

(** What the spring kernel reads, for targets 0 and 1. *)
Lemma spring_L_01 (G : Globals R) (f : Force R) (s : Float32Array R)
    (x0 y0 z0 x1 y1 z1 : R) :
  _p f = [0; 1]%nat ->
  position G s 0 = Vec3 x0 y0 z0 -> position G s 1 = Vec3 x1 y1 z1 ->
  spring_L G f s = (x1 - x0, y1 - y0, z1 - z0).
Proof.
  intros Hp H0 H1. unfold position, glMatrix.fromValues in H0, H1.
  cbn [fround IdealArith] in H0, H1.
  injection H0 as Hx0 Hy0 Hz0. injection H1 as Hx1 Hy1 Hz1.
  unfold spring_L. rewrite Hp.
  cbn [lookup list_lookup ixo fmap option_fmap option_map rdo sub
       IdealArith].
  by rewrite Hx0, Hy0, Hz0, Hx1, Hy1, Hz1.
Qed.

(** Both ends on the x axis, 2 apart: distance 2 and, for natural length
    1, a force [k] along x as long as [k] does not pass the limit. *)
Lemma spring_distance_2 (G : Globals R) (f : Force R) (s : Float32Array R) :
  _p f = [0; 1]%nat ->
  position G s 0 = Vec3 0 0 0 -> position G s 1 = Vec3 2 0 0 ->
  spring_distance G f s = 2.
Proof.
  intros Hp H0 H1. unfold spring_distance.
  rewrite (spring_L_01 G f s _ _ _ _ _ _ Hp H0 H1).
  cbn [Math_sqrt Math_pow add lit IdealArith]. rewrite !R_pow_2.
  replace ((2 - 0) * (2 - 0) + (0 - 0) * (0 - 0) + (0 - 0) * (0 - 0))
    with (2 * 2) by ring.
  apply sqrt_square. lra.
Qed.

Lemma spring_F_along_x (G : Globals R) (f : Force R) (s : Float32Array R) :
  _p f = [0; 1]%nat -> _lr f = 1 ->
  position G s 0 = Vec3 0 0 0 -> position G s 1 = Vec3 2 0 0 ->
  spring_F G f s = Vec3 (Rmin (_k f) 12) 0 0.
Proof.
  intros Hp Hlr H0 H1. unfold spring_F.
  rewrite (spring_distance_2 G f s Hp H0 H1).
  rewrite (spring_L_01 G f s _ _ _ _ _ _ Hp H0 H1), Hlr.
  cbn [Math_min div mul sub lit IdealArith].
  change (Q2R 12) with (Q2R (inject_Z 12)). rewrite Q2R_Z.
  f_equal.
  - f_equal. field.
  - replace (_k f * (2 - 1) * (0 - 0) / 2) with 0 by field.
    apply Rmin_left. lra.
  - replace (_k f * (2 - 1) * (0 - 0) / 2) with 0 by field.
    apply Rmin_left. lra.
Qed.

(** C1.  The end-to-end example: stride 10, two particles, particle 0 at
    the origin and particle 1 at (2, 0, 0), an enabled spring with k = 1,
    natural length 1 and damp = 0 on the particles 0 and 1.  The distance
    is 2, the stretch 1, the force (1, 0, 0); [apply] adds exactly +1 to
    F_X of particle 0 and -1 to F_X of particle 1, and 0 to F_Y and F_Z of
    both. *)
Theorem spring_end_to_end (G : Globals R) (random : nat -> R)
    (s : Float32Array R) :
  layout_ok G -> STATE_SIZE G = 10%nat -> List.length s = 20%nat ->
  position G s 0 = Vec3 0 0 0 -> position G s 1 = Vec3 2 0 0 ->
  let f := spring_1_1_0 in
  let s' := apply G f random s in
  spring_distance G f s = 2
  /\ spring_distance G f s - _lr f = 1
  /\ spring_F G f s = Vec3 1 0 0
  /\ force_acc G s' 0
     = Vec3 (vx (force_acc G s 0) + 1) (vy (force_acc G s 0) + 0)
            (vz (force_acc G s 0) + 0)
  /\ force_acc G s' 1
     = Vec3 (vx (force_acc G s 1) - 1) (vy (force_acc G s 1) + 0)
            (vz (force_acc G s 1) + 0).
Proof.
  intros Hok Hsz Hlen H0 H1 f s'.
  assert (_p f = [0; 1]%nat) as Hp by reflexivity.
  assert (spring_distance G f s = 2) as Hd
    by (by apply spring_distance_2).
  assert (spring_F G f s = Vec3 1 0 0) as HF.
  { rewrite (spring_F_along_x G f s Hp eq_refl H0 H1).
    f_equal. cbn [_k f spring_1_1_0 init_spring]. apply Rmin_left. lra. }
  split; [exact Hd|]. split; [rewrite Hd; cbn; lra|].
  split; [exact HF|].
  assert (in_buffer G s 0 /\ in_buffer G s 1) as [Hb0 Hb1].
  { unfold in_buffer. rewrite Hsz, Hlen. lia. }
  destruct (apply_spring_accumulators G f s 0 1 Hok eq_refl eq_refl)
    as [E0 E1]; [lia | done | done |].
  subst s'. rewrite (apply_is_spring G random f s eq_refl eq_refl).
  rewrite E0, E1, HF. unfold glMatrix.vadd, vneg.
  cbn [vx vy vz fround add neg IdealArith].
  split; f_equal; lra.
Qed.

(** With k = 100 the x component is cut to 12; the other end gets -12. *)
Lemma spring_clamped_example :
  spring_F G0 spring_100_1_0 two_particles = Vec3 12 0 0
  /\ vneg (spring_F G0 spring_100_1_0 two_particles) = Vec3 (-12) (-0) (-0).
Proof.
  assert (spring_F G0 spring_100_1_0 two_particles = Vec3 12 0 0) as E.
  { rewrite (spring_F_along_x G0 spring_100_1_0 two_particles
               eq_refl eq_refl eq_refl eq_refl).
    f_equal. cbn [_k spring_100_1_0 init_spring]. apply Rmin_right. lra. }
  split; [exact E | by rewrite E].
Qed.
End SpringExample.

Lemma spring_end_to_end_witness :
position Ideal.G0 Ideal.two_particles 0 = Vec3 0%R 0%R 0%R
/\ position Ideal.G0 Ideal.two_particles 1 = Vec3 2%R 0%R 0%R
/\ force_acc Ideal.G0
     (apply Ideal.G0 Ideal.spring_1_1_0 Ideal.random0 Ideal.two_particles)
     0
   = Vec3 (vx (force_acc Ideal.G0 Ideal.two_particles 0) + 1)%R
          (vy (force_acc Ideal.G0 Ideal.two_particles 0) + 0)%R
          (vz (force_acc Ideal.G0 Ideal.two_particles 0) + 0)%R.
Proof.
split; [reflexivity|]. split; [reflexivity|].
apply (SpringExample.spring_end_to_end Ideal.G0 Ideal.random0
         Ideal.two_particles SpringExample.layout_ok_G0
         eq_refl eq_refl eq_refl eq_refl).
Defined.

Lemma spring_newton_third_law_witness :
Ideal.spring_100_1_0.(_p) !! 0%nat = Some 0%nat
/\ Ideal.spring_100_1_0.(_p) !! 1%nat = Some 1%nat
/\ spring_F Ideal.G0 Ideal.spring_100_1_0 Ideal.two_particles
   = Vec3 12%R 0%R 0%R
/\ force_acc Ideal.G0
     (apply Ideal.G0 Ideal.spring_100_1_0 Ideal.random0
        Ideal.two_particles) 0
   = glMatrix.vadd (force_acc Ideal.G0 Ideal.two_particles 0)
       (spring_F Ideal.G0 Ideal.spring_100_1_0 Ideal.two_particles)
/\ force_acc Ideal.G0
     (apply Ideal.G0 Ideal.spring_100_1_0 Ideal.random0
        Ideal.two_particles) 1
   = glMatrix.vadd (force_acc Ideal.G0 Ideal.two_particles 1)
       (vneg (spring_F Ideal.G0 Ideal.spring_100_1_0
                Ideal.two_particles)).
Proof.
split; [reflexivity|]. split; [reflexivity|].
split; [exact (proj1 SpringExample.spring_clamped_example)|].
destruct (spring_newton_third_law Ideal.G0 Ideal.random0
            Ideal.spring_100_1_0 Ideal.two_particles 0 1
            SpringExample.layout_ok_G0 eq_refl eq_refl eq_refl eq_refl)
  as [_ Hacc].
apply Hacc.
- lia.
- apply SpringExample.two_particles_in_buffer. lia.
- apply SpringExample.two_particles_in_buffer. lia.
Defined.

(** ** FORCE_FLOCK: the collision-avoidance term *)

Module FlockAvoidance.
Import Ideal IdealFacts.
Local Open Scope R_scope.

(** With real numbers and a distance that is not 0 the term is the offset
    [x_ij] times [-(k_t k_d k_a)]: [x_hat] is [x_ij] times [d_ij], and the
    division by [d_ij] only undoes that product. *)
Lemma collision_avoidance_real (G : Globals R) (f : Force R)
    (s : Float32Array R) (i j : nat) :
  d_ij G f s i j <> 0 ->
  collision_avoidance G f s i j
  = glMatrix.scale (x_ij G f s i j)
      (- (k_t G f s i j * k_d G f s i j * _ka f)).
Proof.
  intros Hd. unfold collision_avoidance, x_hat, glMatrix.scale.
  cbn [vx vy vz fround mul div neg lit IdealArith].
  change (Q2R 1) with (Q2R (inject_Z 1)). rewrite Q2R_Z.
  f_equal; field; exact Hd.
Qed.

(** Its length is [k_t k_d k_a d_ij]: proportional to the distance. *)
Lemma collision_avoidance_norm (G : Globals R) (f : Force R)
    (s : Float32Array R) (i j : nat) :
  d_ij G f s i j <> 0 ->
  norm (collision_avoidance G f s i j)
  = Rabs (k_t G f s i j * k_d G f s i j * _ka f) * d_ij G f s i j.
Proof.
  intros Hd. rewrite (collision_avoidance_real G f s i j Hd).
  rewrite norm_scale, Rabs_Ropp. reflexivity.
Qed.

Lemma x_ij_two_boids : x_ij G0 flock_of_two two_boids 0 1 = Vec3 2 0 0.
Proof.
  unfold x_ij, glMatrix.vsub.
  change (position G0 two_boids (particle flock_of_two 1))
    with (Vec3 2 0 0).
  change (position G0 two_boids (particle flock_of_two 0))
    with (Vec3 0 0 0).
  cbn [vx vy vz fround sub IdealArith]. f_equal; lra.
Qed.

Lemma d_ij_two_boids : d_ij G0 flock_of_two two_boids 0 1 = 2.
Proof.
  unfold d_ij. rewrite x_ij_two_boids. rewrite norm_length. unfold norm.
  cbn [vx vy vz].
  replace (2 * 2 + 0 * 0 + 0 * 0) with (2 * 2) by ring.
  apply sqrt_square. lra.
Qed.

Lemma t_ij_two_boids : t_ij G0 flock_of_two two_boids 0 1 = 0.
Proof.
  unfold t_ij. rewrite x_ij_two_boids.
  change (velocity G0 two_boids (particle flock_of_two 1))
    with (Vec3 1 0 0).
  unfold glMatrix.angle.
  assert (glMatrix.length (Vec3 2 0 0) = 2) as ->.
  { rewrite norm_length. unfold norm. cbn [vx vy vz].
    replace (2 * 2 + 0 * 0 + 0 * 0) with (2 * 2) by ring.
    apply sqrt_square. lra. }
  assert (glMatrix.length (Vec3 1 0 0) = 1) as ->.
  { rewrite norm_length. unfold norm. cbn [vx vy vz].
    replace (1 * 1 + 0 * 0 + 0 * 0) with (1 * 1) by ring.
    apply sqrt_square. lra. }
  unfold glMatrix.dot.
  cbn [vx vy vz eqb mul add div neg lit Math_acos Math_min Math_max
       IdealArith].
  change (Q2R 0) with (Q2R (inject_Z 0)).
  change (Q2R 1) with (Q2R (inject_Z 1)). rewrite !Q2R_Z.
  rewrite Reqb_false by lra.
  replace ((2 * 1 + 0 * 0 + 0 * 0) / (2 * 1)) with 1 by field.
  rewrite Rmax_left by lra. rewrite Rmin_left by lra. apply acos_1.
Qed.

Lemma k_d_two_boids : k_d G0 flock_of_two two_boids 0 1 = 1.
Proof.
  unfold k_d. rewrite d_ij_two_boids.
  cbn [ltb lit _r1 flock_of_two init_boid IdealArith].
  rewrite Rltb_true by lra.
  change (Q2R 1) with (Q2R (inject_Z 1)). by rewrite Q2R_Z.
Qed.

Lemma k_t_two_boids : k_t G0 flock_of_two two_boids 0 1 = 1.
Proof.
  unfold k_t. rewrite t_ij_two_boids.
  cbn [ltb lit mul _t1 flock_of_two init_boid IdealArith].
  rewrite Rltb_true by (unfold Q2R; simpl; lra).
  change (Q2R 1) with (Q2R (inject_Z 1)). by rewrite Q2R_Z.
Qed.

Lemma skip_two_boids : flock_skip G0 flock_of_two two_boids 0 1 = false.
Proof.
  unfold flock_skip, gtb. rewrite d_ij_two_boids, t_ij_two_boids.
  cbn [Nat.eqb orb eqb ltb lit mul _r2 _t2 flock_of_two init_boid
       IdealArith].
  rewrite Reqb_false by (unfold Q2R; simpl; lra).
  rewrite Rltb_false by lra.
  rewrite Rltb_false by (unfold Q2R; simpl; lra).
  reflexivity.
Qed.

(** C4, evaluated.  Boid 1 is a neighbour of boid 0 that is not skipped,
    at distance 2, with both weights 1 and k_a = 1.  The kernel adds
    (-2, 0, 0) for collision avoidance: length 2 = k_t k_d k_a d_ij.  The
    inverse-distance repulsion -(k_a / d_ij) times the unit vector, times
    the weights, would be (-1/2, 0, 0). *)
Theorem flock_avoidance_at_distance_2 :
  flock_skip G0 flock_of_two two_boids 0 1 = false
  /\ d_ij G0 flock_of_two two_boids 0 1 = 2
  /\ k_t G0 flock_of_two two_boids 0 1 = 1
  /\ k_d G0 flock_of_two two_boids 0 1 = 1
  /\ x_hat G0 flock_of_two two_boids 0 1 = Vec3 4 0 0
  /\ collision_avoidance G0 flock_of_two two_boids 0 1 = Vec3 (-2) 0 0
  /\ collision_avoidance G0 flock_of_two two_boids 0 1
     <> Vec3 (- (1 / 2)) 0 0.
Proof.
  assert (x_hat G0 flock_of_two two_boids 0 1 = Vec3 4 0 0) as Hhat.
  { unfold x_hat. rewrite x_ij_two_boids, d_ij_two_boids.
    unfold glMatrix.scale. cbn [vx vy vz fround mul IdealArith].
    f_equal; lra. }
  assert (collision_avoidance G0 flock_of_two two_boids 0 1
          = Vec3 (-2) 0 0) as Hca.
  { unfold collision_avoidance.
    rewrite Hhat, k_t_two_boids, k_d_two_boids, d_ij_two_boids.
    unfold glMatrix.scale.
    cbn [vx vy vz fround mul div neg lit _ka flock_of_two init_boid
         IdealArith].
    change (Q2R 1) with (Q2R (inject_Z 1)). rewrite Q2R_Z.
    f_equal; field. }
  repeat split;
    [ exact skip_two_boids | exact d_ij_two_boids | exact k_t_two_boids
    | exact k_d_two_boids | exact Hhat | exact Hca | ].
  rewrite Hca. intros E. injection E as E. lra.
Qed.
End FlockAvoidance.

(** ** FORCE_FLOCK: a boid with no visible neighbour *)

Section FlockFrame.
Context {num : Type} `{Arith num}.
Variable G : Globals num.
Variable random : nat -> num.
Variable f : Force num.
Hypothesis Hok : layout_ok G.

Local Abbreviation agreeF := (agree_off G (F_X G) (F_Y G) (F_Z G)).

Lemma fold_left_pointwise {A B : Type} (g h : A -> B -> A) (l : list B) :
  (forall a b, g a b = h a b) ->
  forall a, fold_left g l a = fold_left h l a.
Proof using Type.
  intros E. induction l as [|b l IH]; intros a; simpl; [done|].
  by rewrite E, IH.
Qed.

(** The inner loop reads positions and velocities only. *)
Lemma flock_pair_agree xp s s' i a j :
  agreeF s s' -> flock_pair G f xp s i a j = flock_pair G f xp s' i a j.
Proof using Hok.
  intros E.
  unfold flock_pair, flock_skip, collision_avoidance, velocity_matching,
    centering, obstacle_avoidance, goal_seeking, k_t, k_d, x_hat, t_ij,
    d_ij, x_ij.
  rewrite !(position_agree_F G Hok s s' _ E).
  rewrite !(velocity_agree_F G Hok s s' _ E).
  reflexivity.
Qed.

Lemma flock_a_i_agree xp s s' i :
  agreeF s s' -> flock_a_i G f xp s i = flock_a_i G f xp s' i.
Proof using Hok.
  intros E. unfold flock_a_i. apply fold_left_pointwise.
  intros a j. by apply flock_pair_agree.
Qed.

(** With every [j] skipped the inner loop leaves [a_i] at zero. *)
Lemma flock_a_i_all_skipped xp s i :
  (forall j, (j < List.length (_p f))%nat -> flock_skip G f s i j = true) ->
  flock_a_i G f xp s i = glMatrix.zero.
Proof using Type.
  intros Hskip. unfold flock_a_i.
  assert (forall l a, (forall j, j ∈ l -> flock_skip G f s i j = true) ->
                      fold_left (flock_pair G f xp s i) l a = a) as Hl.
  { induction l as [|j l IH]; intros a Hall; simpl; [done|].
    unfold flock_pair at 2. rewrite Hall by (by left).
    apply IH. intros j' Hj'. apply Hall. by right. }
  apply Hl. intros j Hj. apply Hskip. apply elem_of_seq in Hj. lia.
Qed.

(** A boid is never its own neighbour. *)
Lemma flock_skip_self s i : flock_skip G f s i i = true.
Proof using Type. unfold flock_skip. by rewrite Nat.eqb_refl. Qed.

Lemma apply_is_flock s :
  _enabled f = true -> _type f = FORCE_TYPE.FORCE_FLOCK ->
  apply G f random s = apply_flock G f s.
Proof using Type.
  intros Hon Hty. unfold apply, apply_log. rewrite Hon, Hty. reflexivity.
Qed.

(** C10.  In an enabled flock the obstacle-avoidance and goal-seeking
    terms are added inside the loop over the neighbours, after the test
    that skips a neighbour: once for every [j] that is not skipped, not
    once per boid.  So a boid for which every other [j] is skipped (at
    distance 0, beyond max_rad, or outside half the monocular angle) gets
    the zero vector added and its force accumulator is left as it was: no
    obstacle avoidance and no goal seeking either.  Adding zero is taken
    to change nothing. *)
Theorem flock_no_neighbour_no_force (s : Float32Array num) (q : nat) :
  (forall v, fround (add v (lit 0)) = v) ->
  _enabled f = true -> _type f = FORCE_TYPE.FORCE_FLOCK ->
  (forall i j, (i < List.length (_p f))%nat ->
               (j < List.length (_p f))%nat ->
               particle f i = q -> i <> j ->
               flock_skip G f s i j = true) ->
  (forall xp i a j,
      flock_pair G f xp s i a j
      = if flock_skip G f s i j then a
        else glMatrix.vadd
               (glMatrix.vadd
                  (glMatrix.vadd
                     (glMatrix.vadd
                        (glMatrix.vadd a (collision_avoidance G f s i j))
                        (velocity_matching G f s i j))
                     (centering G f s i j))
                  (obstacle_avoidance G f xp s i))
               (goal_seeking G f s i))
  /\ force_acc G (apply G f random s) q = force_acc G s q.
Proof using Hok.
  intros Hzero Hon Hty Hskip. split; [reflexivity|].
  rewrite (apply_is_flock s Hon Hty). unfold apply_flock, force_acc.
  apply (loop_field3_unchanged G (F_X G) (F_Y G) (F_Z G)
           (layout_F_lt G Hok) (layout_F_ne G Hok) nat (particle f)
           (flock_step G f (x_p G s))
           (fun s1 i => Some (flock_a_i G f (x_p G s) s1 i))).
  - intros s1 i. reflexivity.
  - intros s1 s2 i E. f_equal. by apply flock_a_i_agree.
  - intros i d v k Hi Hq [= <-].
    apply elem_of_seq in Hi.
    rewrite flock_a_i_all_skipped.
    + destruct k as [|[|k]]; apply Hzero.
    + intros j Hj. destruct (decide (i = j)) as [<-|Hne].
      * apply flock_skip_self.
      * apply Hskip; [lia | done | done | done].
Qed.
End FlockFrame.

Module FlockFar.
Import Ideal IdealFacts.
Local Open Scope R_scope.

Lemma add_zero_real (v : R) : fround (add v (lit 0)) = v.
Proof.
  cbn [fround add lit IdealArith].
  change (Q2R 0) with (Q2R (inject_Z 0)). rewrite Q2R_Z. lra.
Qed.

Lemma norm_along_x (a : R) : 0 <= a -> glMatrix.length (Vec3 a 0 0) = a.
Proof.
  intros Ha. rewrite norm_length. unfold norm. cbn [vx vy vz].
  replace (a * a + 0 * 0 + 0 * 0) with (a * a) by ring.
  by apply sqrt_square.
Qed.

Lemma norm_along_x_neg (a : R) :
  0 <= a -> glMatrix.length (Vec3 (- a) 0 0) = a.
Proof.
  intros Ha. rewrite norm_length. unfold norm. cbn [vx vy vz].
  replace (- a * - a + 0 * 0 + 0 * 0) with (a * a) by ring.
  by apply sqrt_square.
Qed.

(** Each boid is beyond the outer radius of the other. *)
Lemma far_boids_skipped i j :
  (i < 2)%nat -> (j < 2)%nat ->
  flock_skip G0 flock_of_two far_boids i j = true.
Proof.
  intros Hi Hj.
  destruct i as [|[|i]]; [| |lia]; destruct j as [|[|j]]; try lia;
    try reflexivity.
  - assert (d_ij G0 flock_of_two far_boids 0 1 = 20) as Hd.
    { unfold d_ij, x_ij, glMatrix.vsub.
      change (position G0 far_boids (particle flock_of_two 1))
        with (Vec3 20 0 0).
      change (position G0 far_boids (particle flock_of_two 0))
        with (Vec3 0 0 0).
      cbn [vx vy vz fround sub IdealArith].
      replace (20 - 0) with 20 by lra. replace (0 - 0) with 0 by lra.
      apply norm_along_x. lra. }
    unfold flock_skip, gtb. rewrite Hd.
    cbn [Nat.eqb orb eqb ltb lit _r2 flock_of_two init_boid IdealArith].
    rewrite (Rltb_true 10 20) by lra.
    by rewrite orb_true_r.
  - assert (d_ij G0 flock_of_two far_boids 1 0 = 20) as Hd.
    { unfold d_ij, x_ij, glMatrix.vsub.
      change (position G0 far_boids (particle flock_of_two 1))
        with (Vec3 20 0 0).
      change (position G0 far_boids (particle flock_of_two 0))
        with (Vec3 0 0 0).
      cbn [vx vy vz fround sub IdealArith].
      replace (0 - 20) with (- 20) by lra. replace (0 - 0) with 0 by lra.
      apply norm_along_x_neg. lra. }
    unfold flock_skip, gtb. rewrite Hd.
    cbn [Nat.eqb orb eqb ltb lit _r2 flock_of_two init_boid IdealArith].
    rewrite (Rltb_true 10 20) by lra.
    by rewrite orb_true_r.
Qed.
End FlockFar.

Lemma flock_no_neighbour_no_force_witness :
(forall i j, (i < 2)%nat -> (j < 2)%nat -> i <> j ->
             flock_skip Ideal.G0 Ideal.flock_of_two Ideal.far_boids i j
             = true)
/\ force_acc Ideal.G0
     (apply Ideal.G0 Ideal.flock_of_two Ideal.random0 Ideal.far_boids) 0
   = force_acc Ideal.G0 Ideal.far_boids 0.
Proof.
split; [intros i j Hi Hj _; by apply FlockFar.far_boids_skipped|].
apply (flock_no_neighbour_no_force Ideal.G0 Ideal.random0
         Ideal.flock_of_two SpringExample.layout_ok_G0 Ideal.far_boids 0
         FlockFar.add_zero_real eq_refl eq_refl).
intros i j Hi Hj _ _. by apply FlockFar.far_boids_skipped.
Defined.

(** ** The field attractors: what the loops do to one particle *)

Section Attractors.
Context {num : Type} `{Arith num}.
Variable G : Globals num.
Variable random : nat -> num.
Variable f : Force num.
Hypothesis Hok : layout_ok G.

Local Abbreviation agreeF := (agree_off G (F_X G) (F_Y G) (F_Z G)).
Local Abbreviation agreeV := (agree_off G (V_X G) (V_Y G) (V_Z G)).

(** *** FORCE_LINE_ATTRACTOR *)


Lemma line_delta_agree s s' q :
  agreeF s s' ->
  (if line_guard G f s q then Some (a_ai G f s q) else None)
  = (if line_guard G f s' q then Some (a_ai G f s' q) else None).
Proof using Hok.
  intros E. unfold line_guard, a_ai, r_ai, l_ai, x_ai.
  by rewrite !(position_agree_F G Hok s s' _ E).
Qed.

Lemma line_step_spec s q :
  line_attractor_step G f s q
  = match (if line_guard G f s q then Some (a_ai G f s q) else None) with
    | Some d => add3 G (F_X G) (F_Y G) (F_Z G) s q d
    | None => s
    end.
Proof using Type.
  unfold line_attractor_step. by destruct (line_guard G f s q).
Qed.



(** *** FORCE_POINT_ATTRACTOR *)


Lemma point_delta_agree s s' q :
  agreeF s s' ->
  (if point_skip G f s q then None else Some (point_pull G f s q))
  = (if point_skip G f s' q then None else Some (point_pull G f s' q)).
Proof using Hok.
  intros E. unfold point_skip, point_pull, attractor_dir.
  by rewrite !(position_agree_F G Hok s s' _ E).
Qed.

Lemma point_step_spec s q :
  point_attractor_step G f s q
  = match (if point_skip G f s q then None
           else Some (point_pull G f s q)) with
    | Some d => add3 G (F_X G) (F_Y G) (F_Z G) s q d
    | None => s
    end.
Proof using Type.
  unfold point_attractor_step. by destruct (point_skip G f s q).
Qed.



(** *** FORCE_VORTEX *)

Lemma apply_is_vortex s :
  _enabled f = true -> _type f = FORCE_TYPE.FORCE_VORTEX ->
  apply G f random s = apply_vortex G f s.
Proof using Type.
  intros Hon Hty. unfold apply, apply_log. rewrite Hon, Hty. reflexivity.
Qed.

Lemma vortex_delta_agree s s' q :
  agreeV s s' ->
  (if vortex_guard G f s q then Some (vortex_dv G f s q) else None)
  = (if vortex_guard G f s' q then Some (vortex_dv G f s' q) else None).
Proof using Hok.
  intros E. unfold vortex_guard, vortex_dv, omega, r_i, l_vi, x_vi.
  by rewrite !(position_agree_V G Hok s s' _ E).
Qed.

Lemma vortex_step_spec s q :
  vortex_step G f s q
  = match (if vortex_guard G f s q then Some (vortex_dv G f s q)
           else None) with
    | Some d => add3 G (V_X G) (V_Y G) (V_Z G) s q d
    | None => s
    end.
Proof using Type.
  unfold vortex_step. by destruct (vortex_guard G f s q).
Qed.

End Attractors.

(** ** The field attractors with real numbers *)

Module AttractorsReal.
Import Ideal IdealFacts.
Local Open Scope R_scope.

Lemma lit_0_01 : Q2R 0.01 = 1 / 100.
Proof. unfold Q2R. cbn [Qnum Qden]. lra. Qed.


Lemma lit_0_33 : Q2R 0.33 = 33 / 100.
Proof. unfold Q2R. cbn [Qnum Qden]. lra. Qed.

Lemma lit_1 : Q2R 1 = 1.
Proof. change (Q2R 1) with (Q2R (inject_Z 1)). apply Q2R_Z. Qed.

Lemma lit_2 : Q2R 2 = 2.
Proof. change (Q2R 2) with (Q2R (inject_Z 2)). apply Q2R_Z. Qed.


Lemma listed_once_singleton (q : nat) : listed_once [q] q.
Proof.
  exists [], []. split; [done|]. simpl. apply not_elem_of_nil.
Qed.






End AttractorsReal.


(** ** FORCE_POINT_ATTRACTOR and FORCE_VORTEX with real numbers *)

Module PointVortexReal.
Import Ideal IdealFacts AttractorsReal.
Local Open Scope R_scope.


Lemma point_pull_real (G : Globals R) (f : Force R) (s : Float32Array R)
    (q : nat) :
  point_pull G f s q
  = glMatrix.scale (attractor_dir G f s q)
      (_r f / R_pow (norm (attractor_dir G f s q)) (_pow f + 1)).
Proof.
  unfold point_pull. rewrite norm_length.
  cbn [div add lit Math_pow IdealArith]. by rewrite lit_1.
Qed.


Lemma dir_one_particle_on_x :
  attractor_dir G0 point_at_origin one_particle_on_x 0 = Vec3 (- 2) 0 0
  /\ norm (attractor_dir G0 point_at_origin one_particle_on_x 0) = 2.
Proof.
  assert (attractor_dir G0 point_at_origin one_particle_on_x 0
          = Vec3 (- 2) 0 0) as E.
  { unfold attractor_dir, glMatrix.vsub.
    change (position G0 one_particle_on_x 0) with (Vec3 2 0 0).
    change (_x_a point_at_origin) with (Vec3 0 0 0).
    cbn [vx vy vz fround sub IdealArith]. f_equal; lra. }
  split; [exact E|]. rewrite E, <- norm_length.
  apply FlockFar.norm_along_x_neg. lra.
Qed.

(** The two tests of the vortex. *)
Lemma vortex_guard_real (G : Globals R) (f : Force R) (s : Float32Array R)
    (q : nat) :
  vortex_guard G f s q = true
  <-> 1 / 100 <= l_vi G f s q < _L f /\ norm (r_i G f s q) < _r f.
Proof.
  unfold vortex_guard, epsilon. cbn [leb ltb lit IdealArith].
  rewrite lit_0_01, !andb_true_iff, Rleb_spec, !Rltb_spec, norm_length.
  done.
Qed.


End PointVortexReal.



(** ** Force.draw *)

Section Draw.
Context {num : Type} `{Arith num}.
Variable random : nat -> num.

(** C9, as the code has it.  For a spring, [draw] makes one call of
    [vbo.reload] with 14 floats (two vertices of 3 position, 3 colour and
    1 enabled-flag components) at element offset [index * 14]; for any
    other variant it makes no call.  The colour is white when
    [|len - lr| < 0.01]; otherwise, with
    [delta = 1 - |len - lr| / lr], it is [(1, delta, delta)] when
    [delta <= 0.33] and [(delta, delta, 1)] when not.  It is a function of
    [|len - lr|], the same for a compressed and for an extended spring. *)
Theorem draw_spring_segment (f : Force num) (index : nat) (enabled : bool)
    (p0 p1 : vec3 num) :
  let dev := Math_abs (sub (draw_len p0 p1) (_lr f)) in
  let delta := sub (lit 1) (div dev (_lr f)) in
  let e := flag (enabled && _enabled f) in
  let c := spring_colour f p0 p1 in
  (if _type f =? FORCE_TYPE.FORCE_SPRING then
     draw f random index enabled p0 p1
     = [([fround (vx p0); fround (vy p0); fround (vz p0);
          fround c.1.1; fround c.1.2; fround c.2; fround e;
          fround (vx p1); fround (vy p1); fround (vz p1);
          fround c.1.1; fround c.1.2; fround c.2; fround e],
         index * 14)]
   else draw f random index enabled p0 p1 = [])
  /\ (forall data offset,
        (data, offset) ∈ draw f random index enabled p0 p1 ->
        List.length data = 14 /\ offset = index * 14)
  /\ (ltb dev (lit 0.01) = true -> c = (lit 1, lit 1, lit 1))
  /\ (ltb dev (lit 0.01) = false -> leb delta (lit 0.33) = true ->
      c = (lit 1, delta, delta))
  /\ (ltb dev (lit 0.01) = false -> leb delta (lit 0.33) = false ->
      c = (delta, delta, lit 1)).
Proof.
  intros dev delta e c. subst dev delta e c.
  assert (index * 7 * 2 = index * 14) as Hoff by lia.
  split; [|split; [|split; [|split]]].
  - unfold draw. destruct (_type f =? FORCE_TYPE.FORCE_SPRING); [|done].
    destruct (spring_colour f p0 p1) as [[r g] b]. simpl. by rewrite Hoff.
  - intros data offset. unfold draw.
    destruct (_type f =? FORCE_TYPE.FORCE_SPRING).
    + destruct (spring_colour f p0 p1) as [[r g] b].
      intros Hin. apply list_elem_of_singleton in Hin.
      injection Hin as -> ->. split; [done | lia].
    + intros Hin. by apply elem_of_nil in Hin.
  - intros Hw. unfold spring_colour. by rewrite Hw.
  - intros Hw Hd. unfold spring_colour, draw_delta. by rewrite Hw, Hd.
  - intros Hw Hd. unfold spring_colour, draw_delta. by rewrite Hw, Hd.
Qed.
End Draw.

Module DrawReal.
Import Ideal IdealFacts AttractorsReal.
Local Open Scope R_scope.

Lemma draw_len_along_x (a : R) :
  0 <= a -> draw_len (Vec3 0 0 0) (Vec3 a 0 0) = a.
Proof.
  intros Ha. unfold draw_len.
  cbn [vx vy vz Math_sqrt Math_pow add sub lit IdealArith].
  rewrite !R_pow_2.
  replace ((a - 0) * (a - 0) + (0 - 0) * (0 - 0) + (0 - 0) * (0 - 0))
    with (a * a) by ring.
  by apply sqrt_square.
Qed.

(** A spring of natural length 1 whose length is off by one half, either
    way, is drawn in [(1/2, 1/2, 1)]. *)
Lemma colour_half_off (a : R) :
  0 <= a -> Rabs (a - 1) = 1 / 2 ->
  spring_colour spring_1_1_0 (Vec3 0 0 0) (Vec3 a 0 0) = (1 / 2, 1 / 2, 1).
Proof.
  intros Ha Hdev. unfold spring_colour, draw_delta.
  rewrite (draw_len_along_x a Ha).
  change (_lr spring_1_1_0) with 1.
  cbn [ltb leb sub div lit Math_abs IdealArith].
  rewrite Hdev, lit_0_01, lit_0_33, lit_1.
  rewrite Rltb_false by lra. rewrite Rleb_false by lra.
  f_equal; try f_equal; lra.
Qed.

(** C9 as the spec words it fails.  A spring of natural length 1
    compressed to 1/2 is drawn in (1/2, 1/2, 1), which is not a colour
    between green and red; stretched to 3/2 it is drawn in the very same
    colour, which is not between blue and red either. *)
Lemma draw_colour_counterexample :
  let compressed := spring_colour spring_1_1_0 (Vec3 0 0 0)
                      (Vec3 (1 / 2) 0 0) in
  let extended := spring_colour spring_1_1_0 (Vec3 0 0 0)
                    (Vec3 (3 / 2) 0 0) in
  draw_len (Vec3 0 0 0) (Vec3 (1 / 2) 0 0) = 1 / 2
  /\ draw_len (Vec3 0 0 0) (Vec3 (3 / 2) 0 0) = 3 / 2
  /\ compressed = (1 / 2, 1 / 2, 1)
  /\ extended = compressed
  /\ ~ on_gradient green red compressed
  /\ ~ on_gradient blue red extended.
Proof.
  intros compressed extended. subst compressed extended.
  assert (Rabs (1 / 2 - 1) = 1 / 2) as Hc.
  { rewrite Rabs_left by lra. lra. }
  assert (Rabs (3 / 2 - 1) = 1 / 2) as He.
  { rewrite Rabs_right by lra. lra. }
  rewrite (colour_half_off (1 / 2)) by (lra || done).
  rewrite (colour_half_off (3 / 2)) by (lra || done).
  split; [apply draw_len_along_x; lra|].
  split; [apply draw_len_along_x; lra|].
  split; [done|]. split; [done|]. split.
  - intros (t & Ht & E). unfold green, red in E. cbn [fst snd] in E.
    injection E as E1 E2 E3. lra.
  - intros (t & Ht & E). unfold blue, red in E. cbn [fst snd] in E.
    injection E as E1 E2 E3. lra.
Qed.
End DrawReal.

(** * Further properties of the force engine *)

(** ** What [apply] never does to the buffer *)

Section Frame.
Context {num : Type} `{Arith num}.
Variable G : Globals num.
Variable random : nat -> num.
Variable f : Force num.

Lemma lookup_sub_from_ne s i j v : i <> j -> sub_from s i v !! j = s !! j.
Proof. intros Hne. unfold sub_from, wr. by apply list_lookup_insert_ne. Qed.

Lemma lookup_sub_from_eq s i v :
  sub_from s i v !! i = (fun x => fround (sub x v)) <$> s !! i.
Proof.
  unfold sub_from, wr, rd. destruct (s !! i) as [x|] eqn:E; simpl.
  - apply list_lookup_insert_eq. by eapply lookup_lt_Some.
  - rewrite list_insert_ge; [done|]. by apply lookup_ge_None.
Qed.

Lemma length_sub_from s i v :
  List.length (sub_from s i v) = List.length s.
Proof. unfold sub_from, wr. apply length_insert. Qed.


Lemma fold_left_length {A : Type} (body : Float32Array num -> A ->
                                          Float32Array num) xs :
  (forall s x, List.length (body s x) = List.length s) ->
  forall s, List.length (fold_left body xs s) = List.length s.
Proof.
  intros Hb. induction xs as [|x xs IH]; intros s; simpl; [done|].
  by rewrite IH, Hb.
Qed.

Lemma length_wind xs : forall s c,
  List.length (fst (fold_left (wind_step G f random) xs (s, c)))
  = List.length s.
Proof.
  induction xs as [|x xs IH]; intros s c; simpl; [done|].
  rewrite IH. by rewrite !length_add_to.
Qed.


(** X4.  With an empty target list [apply] returns the buffer as it was
    given, for every type tag: the loops do not run, and the spring, which
    reads [_p[0]] and [_p[1]] without a test, stores to no element. *)
Theorem apply_empty_targets (s : Float32Array num) :
  _p f = [] -> apply G f random s = s.
Proof.
  intros Hp. unfold apply, apply_log.
  destruct (negb (_enabled f)); [done|].
  repeat match goal with
         | |- context [if ?b then _ else _] => destruct b
         end; cbn [fst]; try done.
  - unfold apply_simp_gravity. by rewrite Hp.
  - unfold apply_drag. by rewrite Hp.
  - unfold apply_wind. by rewrite Hp.
  - unfold apply_spring. by rewrite Hp.
  - unfold apply_flock. by rewrite Hp.
  - unfold apply_line_attractor. by rewrite Hp.
  - unfold apply_vortex. by rewrite Hp.
  - unfold apply_uniform_point_attractor. by rewrite Hp.
  - unfold apply_point_attractor. by rewrite Hp.
Qed.

Hypothesis Hok : layout_ok G.

Local Abbreviation agreeF := (agree_off G (F_X G) (F_Y G) (F_Z G)).
Local Abbreviation agreeV := (agree_off G (V_X G) (V_Y G) (V_Z G)).

(** A store to one of the three fields [w1], [w2], [w3] of a particle. *)
Lemma agree_off_add_to w1 w2 w3 w s q v :
  (w < STATE_SIZE G)%nat -> w = w1 \/ w = w2 \/ w = w3 ->
  agree_off G w1 w2 w3 s (add_to s (ix G q w) v).
Proof using Type.
  intros Hw Hin q' o Ho H1 H2 H3.
  rewrite lookup_add_to_ne; [done|].
  apply ix_ne; [done | done |]. right. intros ->.
  destruct Hin as [E|[E|E]]; by rewrite E in *.
Qed.

Lemma agree_off_sub_from w1 w2 w3 w s q v :
  (w < STATE_SIZE G)%nat -> w = w1 \/ w = w2 \/ w = w3 ->
  agree_off G w1 w2 w3 s (sub_from s (ix G q w) v).
Proof using Type.
  intros Hw Hin q' o Ho H1 H2 H3.
  rewrite lookup_sub_from_ne; [done|].
  apply ix_ne; [done | done |]. right. intros ->.
  destruct Hin as [E|[E|E]]; by rewrite E in *.
Qed.

Lemma agree_off_fold {A : Type} w1 w2 w3
    (body : Float32Array num -> A -> Float32Array num) xs :
  (forall s x, agree_off G w1 w2 w3 s (body s x)) ->
  forall s, agree_off G w1 w2 w3 s (fold_left body xs s).
Proof using Type.
  intros Hb. induction xs as [|x xs IH]; intros s; simpl.
  - apply agree_off_refl.
  - eapply agree_off_trans; [apply Hb | apply IH].
Qed.

Lemma agreeF_add_force s q d : agreeF s (add_force G s q d).
Proof using Hok.
  rewrite add_force_add3. apply agree_off_add3. by apply layout_F_lt.
Qed.

Lemma agreeF_gravity s : agreeF s (apply_simp_gravity G f s).
Proof using Hok.
  destruct (layout_F_lt G Hok) as (? & ? & ?).
  apply agree_off_fold. intros s1 q. apply agree_off_add_to; auto.
Qed.

Lemma agreeF_drag s : agreeF s (apply_drag G f s).
Proof using Hok.
  destruct (layout_F_lt G Hok) as (? & ? & ?).
  apply agree_off_fold. intros s1 q. unfold drag_step.
  eapply agree_off_trans; [eapply agree_off_trans|];
    apply agree_off_sub_from; auto.
Qed.

Lemma agreeF_wind xs : forall s c,
  agreeF s (fst (fold_left (wind_step G f random) xs (s, c))).
Proof using Hok.
  destruct (layout_F_lt G Hok) as (? & ? & ?).
  induction xs as [|x xs IH]; intros s c; simpl.
  - apply agree_off_refl.
  - eapply agree_off_trans; [|apply IH].
    eapply agree_off_trans; [eapply agree_off_trans|];
      apply agree_off_add_to; auto.
Qed.

Lemma agreeF_add_to_o s q w v :
  (w < STATE_SIZE G)%nat -> w = F_X G \/ w = F_Y G \/ w = F_Z G ->
  agreeF s (add_to_o s (ixo G q w) v).
Proof using Type.
  intros Hw Hin. destruct q as [q|]; simpl.
  - by apply agree_off_add_to.
  - apply agree_off_refl.
Qed.

Lemma agreeF_spring s : agreeF s (apply_spring G f s).
Proof using Hok.
  destruct (layout_F_lt G Hok) as (? & ? & ?).
  unfold apply_spring. cbv zeta.
  do 5 (eapply agree_off_trans; [|apply agreeF_add_to_o; auto]).
  apply agreeF_add_to_o; auto.
Qed.

(** Every kernel but the vortex leaves all fields other than the force
    accumulators as they were. *)
Lemma apply_agreeF s :
  _type f <> FORCE_TYPE.FORCE_VORTEX -> agreeF s (apply G f random s).
Proof using Hok.
  intros Hty. unfold apply, apply_log.
  destruct (negb (_enabled f)); [apply agree_off_refl|].
  repeat match goal with
         | |- context [if ?b then _ else _] => destruct b eqn:?
         end; cbn [fst]; try apply agree_off_refl.
  - apply agreeF_gravity.
  - apply agreeF_drag.
  - apply agreeF_wind.
  - apply agreeF_spring.
  - apply agree_off_fold. intros s1 i. apply agreeF_add_force.
  - apply agree_off_fold. intros s1 q. unfold line_attractor_step.
    destruct (line_guard G f s1 q);
      [apply agreeF_add_force | apply agree_off_refl].
  - exfalso. apply Hty. by apply Nat.eqb_eq.
  - apply agree_off_fold. intros s1 q. apply agreeF_add_force.
  - apply agree_off_fold. intros s1 q. unfold point_attractor_step.
    destruct (point_skip G f s1 q);
      [apply agree_off_refl | apply agreeF_add_force].
Qed.

Lemma apply_vortex_agreeV s : agreeV s (apply_vortex G f s).
Proof using Hok.
  apply agree_off_fold. intros s1 q. unfold vortex_step.
  destruct (vortex_guard G f s1 q); [|apply agree_off_refl].
  rewrite add_velocity_add3. apply agree_off_add3. by apply layout_V_lt.
Qed.

(** Every index is some field of some particle. *)
Lemma ix_decompose i :
  i = ix G (i / STATE_SIZE G) (i mod STATE_SIZE G)
  /\ (i mod STATE_SIZE G < STATE_SIZE G)%nat.
Proof using Hok.
  destruct (layout_F_lt G Hok) as (Hpos & _ & _).
  assert (STATE_SIZE G <> 0)%nat as Hnz by lia.
  split.
  - unfold ix. rewrite (Nat.div_mod i (STATE_SIZE G) Hnz) at 1. lia.
  - by apply Nat.mod_upper_bound.
Qed.

(** X2.  Every force other than a vortex writes force accumulators only:
    an element of the buffer whose offset inside its particle is none of
    F_X, F_Y, F_Z (a position, a velocity, the mass, any further field)
    comes back from [apply] unchanged. *)
Theorem apply_writes_force_fields_only (s : Float32Array num) (i : nat) :
  _type f <> FORCE_TYPE.FORCE_VORTEX ->
  i mod STATE_SIZE G ∉ [F_X G; F_Y G; F_Z G] ->
  apply G f random s !! i = s !! i.
Proof using Hok.
  intros Hty Hi. destruct (ix_decompose i) as [E Hlt].
  apply not_elem_of_cons in Hi as [H1 Hi].
  apply not_elem_of_cons in Hi as [H2 Hi].
  apply not_elem_of_cons in Hi as [H3 _].
  rewrite E. symmetry. by apply (apply_agreeF s Hty).
Qed.

(** X3.  A vortex writes velocities only: an element whose offset inside
    its particle is none of V_X, V_Y, V_Z (a position, a force
    accumulator, the mass) comes back from [apply] unchanged. *)
Theorem vortex_writes_velocity_fields_only (s : Float32Array num)
    (i : nat) :
  _type f = FORCE_TYPE.FORCE_VORTEX ->
  i mod STATE_SIZE G ∉ [V_X G; V_Y G; V_Z G] ->
  apply G f random s !! i = s !! i.
Proof using Hok.
  intros Hty Hi. destruct (ix_decompose i) as [E Hlt].
  apply not_elem_of_cons in Hi as [H1 Hi].
  apply not_elem_of_cons in Hi as [H2 Hi].
  apply not_elem_of_cons in Hi as [H3 _].
  assert (agreeV s (apply G f random s)) as Hag.
  { unfold apply, apply_log. rewrite Hty.
    destruct (negb (_enabled f)); [apply agree_off_refl|].
    cbn [fst Nat.eqb FORCE_TYPE.FORCE_VORTEX
         FORCE_TYPE.FORCE_SIMP_GRAVITY FORCE_TYPE.FORCE_DRAG
         FORCE_TYPE.FORCE_WIND FORCE_TYPE.FORCE_SPRING
         FORCE_TYPE.FORCE_FLOCK FORCE_TYPE.FORCE_LINE_ATTRACTOR].
    apply apply_vortex_agreeV. }
  rewrite E. symmetry. by apply Hag.
Qed.
End Frame.

(** ** Additive kernels *)

Section AdditiveFacts.
Context {num : Type} `{Arith num}.
Variable G : Globals num.
Variables w1 w2 w3 : nat.
Hypothesis w_lt :
  (w1 < STATE_SIZE G)%nat /\ (w2 < STATE_SIZE G)%nat
  /\ (w3 < STATE_SIZE G)%nat.

Local Abbreviation agree := (agree_off G w1 w2 w3).
Local Abbreviation additive := (additive_on G w1 w2 w3).

Lemma ix_div q o : (o < STATE_SIZE G)%nat -> ix G q o / STATE_SIZE G = q.
Proof using Type.
  clear w_lt. intros Ho. unfold ix. rewrite Nat.div_add_l by lia.
  rewrite Nat.div_small by done. lia.
Qed.

Lemma ix_mod q o :
  (o < STATE_SIZE G)%nat -> ix G q o mod STATE_SIZE G = o.
Proof using Type.
  clear w_lt. intros Ho. unfold ix. rewrite Nat.add_comm, Nat.Div0.mod_add.
  by apply Nat.mod_small.
Qed.

Lemma written_lt w : w ∈ [w1; w2; w3] -> (w < STATE_SIZE G)%nat.
Proof using w_lt.
  destruct w_lt as (? & ? & ?). intros Hin.
  repeat (apply elem_of_cons in Hin as [->|Hin]; [done|]).
  by apply elem_of_nil in Hin.
Qed.

Lemma lookup_add_to_gen (s : Float32Array num) j v i :
  add_to s j v !! i
  = (fun x => if decide (j = i) then fround (add x v) else x) <$> s !! i.
Proof using Type.
  destruct (decide (j = i)) as [->|Hne].
  - rewrite lookup_add_to_eq. by destruct (s !! i).
  - rewrite lookup_add_to_ne by done. by destruct (s !! i).
Qed.

Lemma lookup_sub_from_gen (s : Float32Array num) j v i :
  sub_from s j v !! i
  = (fun x => if decide (j = i) then fround (sub x v) else x) <$> s !! i.
Proof using Type.
  destruct (decide (j = i)) as [->|Hne].
  - rewrite lookup_sub_from_eq. by destruct (s !! i).
  - rewrite lookup_sub_from_ne by done. by destruct (s !! i).
Qed.

Lemma additive_id T : additive (fun s => s) T.
Proof using Type.
  intros s0. exists (fun _ v => v). split; [|done].
  intros s i _. by destruct (s !! i).
Qed.

Lemma additive_mono K T T' :
  (forall q, q ∈ T -> q ∈ T') -> additive K T -> additive K T'.
Proof using Type.
  intros Hsub HK s0. destruct (HK s0) as (psi & Hl & HT & Hf).
  exists psi. split; [done|]. split; [|done].
  intros i v Hi. apply HT. intros Hin. apply Hi. by apply Hsub.
Qed.

(** An additive kernel leaves the other fields as they were. *)
Lemma additive_agree K T s : additive K T -> agree s (K s).
Proof using Type.
  intros HK q o Ho H1 H2 H3.
  destruct (HK s) as (psi & Hl & _ & Hf).
  rewrite (Hl s _ (agree_off_refl G w1 w2 w3 s)).
  destruct (s !! ix G q o) as [v|]; simpl; [|done].
  rewrite Hf; [done|]. rewrite ix_mod by done.
  intros Hin.
  repeat (apply elem_of_cons in Hin as [->|Hin]; [done|]).
  by apply elem_of_nil in Hin.
Qed.

Lemma additive_comp K1 K2 T :
  additive K1 T -> additive K2 T -> additive (fun s => K2 (K1 s)) T.
Proof using Type.
  intros H1 H2 s0.
  destruct (H1 s0) as (psi1 & Hl1 & HT1 & Hf1).
  destruct (H2 s0) as (psi2 & Hl2 & HT2 & Hf2).
  exists (fun i v => psi2 i (psi1 i v)). split; [|split].
  - intros s i Hag.
    rewrite (Hl2 (K1 s) i).
    + rewrite (Hl1 s i Hag). by destruct (s !! i).
    + eapply agree_off_trans; [exact Hag | by eapply additive_agree].
  - intros i v Hi. by rewrite HT1, HT2.
  - intros i v Hi. by rewrite Hf1, Hf2.
Qed.

(** A kernel that first reads a parameter from fields it does not write. *)
Lemma additive_param {P : Type}
    (K : P -> Float32Array num -> Float32Array num)
    (param : Float32Array num -> P) T :
  (forall c, additive (K c) T) ->
  (forall s s', agree s s' -> param s = param s') ->
  additive (fun s => K (param s) s) T.
Proof using Type.
  intros HK Hext s0.
  destruct (HK (param s0) s0) as (psi & Hl & HT & Hf).
  exists psi. split; [|done].
  intros s i Hag. rewrite <- (Hext s0 s Hag). by apply Hl.
Qed.

Lemma additive_fold {A : Type}
    (body : Float32Array num -> A -> Float32Array num) xs T :
  (forall x, x ∈ xs -> additive (fun s => body s x) T) ->
  additive (fold_left body xs) T.
Proof using Type.
  induction xs as [|x xs IH]; intros Hb.
  - apply additive_id.
  - apply (additive_comp (fun s => body s x) (fold_left body xs)).
    + apply Hb. by left.
    + apply IH. intros y Hy. apply Hb. by right.
Qed.

Lemma additive_add_to q w v :
  w ∈ [w1; w2; w3] -> additive (fun s => add_to s (ix G q w) v) [q].
Proof using w_lt.
  intros Hw s0. pose proof (written_lt w Hw) as Hlt.
  exists (fun i x => if decide (ix G q w = i) then fround (add x v)
                     else x).
  split; [|split].
  - intros s i _. apply lookup_add_to_gen.
  - intros i x Hi. destruct (decide (ix G q w = i)) as [<-|]; [|done].
    exfalso. apply Hi. rewrite ix_div by done. by left.
  - intros i x Hi. destruct (decide (ix G q w = i)) as [<-|]; [|done].
    exfalso. apply Hi. by rewrite ix_mod.
Qed.

Lemma additive_sub_from q w v :
  w ∈ [w1; w2; w3] -> additive (fun s => sub_from s (ix G q w) v) [q].
Proof using w_lt.
  intros Hw s0. pose proof (written_lt w Hw) as Hlt.
  exists (fun i x => if decide (ix G q w = i) then fround (sub x v)
                     else x).
  split; [|split].
  - intros s i _. apply lookup_sub_from_gen.
  - intros i x Hi. destruct (decide (ix G q w = i)) as [<-|]; [|done].
    exfalso. apply Hi. rewrite ix_div by done. by left.
  - intros i x Hi. destruct (decide (ix G q w = i)) as [<-|]; [|done].
    exfalso. apply Hi. by rewrite ix_mod.
Qed.

Lemma additive_add3 q d :
  additive (fun s => add3 G w1 w2 w3 s q d) [q].
Proof using w_lt.
  unfold add3.
  apply (additive_comp
           (fun s => add_to (add_to s (ix G q w1) (vx d)) (ix G q w2)
                       (vy d))
           (fun s => add_to s (ix G q w3) (vz d))).
  - apply (additive_comp (fun s => add_to s (ix G q w1) (vx d))
             (fun s => add_to s (ix G q w2) (vy d)));
      apply additive_add_to; repeat constructor.
  - apply additive_add_to. repeat constructor.
Qed.

(** A loop whose body adds a vector, read off the other fields, to the
    three fields of one particle, or does nothing. *)
Lemma additive_loop {A : Type} (target : A -> nat)
    (body : Float32Array num -> A -> Float32Array num)
    (delta : Float32Array num -> A -> option (vec3 num)) xs T :
  (forall s x,
      body s x = match delta s x with
                 | Some d => add3 G w1 w2 w3 s (target x) d
                 | None => s
                 end) ->
  (forall s s' x, agree s s' -> delta s x = delta s' x) ->
  (forall x, x ∈ xs -> target x ∈ T) ->
  additive (fold_left body xs) T.
Proof using w_lt.
  intros Hspec Hext Hin. apply additive_fold. intros x Hx.
  assert (additive
            (fun s => (fun c s => match c with
                                  | Some d => add3 G w1 w2 w3 s (target x) d
                                  | None => s
                                  end) (delta s x) s) T) as Ha.
  { apply (additive_param
             (fun c s => match c with
                         | Some d => add3 G w1 w2 w3 s (target x) d
                         | None => s
                         end) (fun s => delta s x)).
    - intros [d|]; [|apply additive_id].
      apply (additive_mono _ [target x]); [|apply additive_add3].
      intros q Hq. apply list_elem_of_singleton in Hq as ->. by apply Hin.
    - intros s s' Hag. by apply Hext. }
  intros s0. destruct (Ha s0) as (psi & Hl & HT & Hf).
  exists psi. split; [|done].
  intros s i Hag. rewrite Hspec. by apply Hl.
Qed.

(** Two additive kernels with no target in common commute. *)
Lemma additive_commute K1 K2 T1 T2 s :
  additive K1 T1 -> additive K2 T2 ->
  (forall q, q ∈ T1 -> q ∉ T2) ->
  K1 (K2 s) = K2 (K1 s).
Proof using Type.
  intros H1 H2 Hdis.
  destruct (H1 s) as (psi1 & Hl1 & HT1 & _).
  destruct (H2 s) as (psi2 & Hl2 & HT2 & _).
  apply list_eq. intros i.
  assert (K1 (K2 s) !! i = psi1 i <$> (psi2 i <$> s !! i)) as E1.
  { etrans; [apply Hl1; by eapply additive_agree|].
    f_equal. apply Hl2, agree_off_refl. }
  assert (K2 (K1 s) !! i = psi2 i <$> (psi1 i <$> s !! i)) as E2.
  { etrans; [apply Hl2; by eapply additive_agree|].
    f_equal. apply Hl1, agree_off_refl. }
  etrans; [exact E1|]. etrans; [|symmetry; exact E2].
  destruct (s !! i) as [v|]; simpl; [|done]. f_equal.
  destruct (decide (i / STATE_SIZE G ∈ T1)) as [Hin|Hout].
  - by rewrite !HT2 by (by apply Hdis).
  - by rewrite !HT1 by done.
Qed.

(** An additive kernel leaves every particle outside its targets alone. *)
Lemma additive_untouched K T s q o :
  additive K T -> q ∉ T -> (o < STATE_SIZE G)%nat ->
  K s !! ix G q o = s !! ix G q o.
Proof using Type.
  intros HK Hq Ho. destruct (HK s) as (psi & Hl & HT & _).
  rewrite (Hl s _ (agree_off_refl G w1 w2 w3 s)).
  destruct (s !! ix G q o) as [v|]; simpl; [|done].
  rewrite HT; [done|]. by rewrite ix_div.
Qed.
End AdditiveFacts.

(** ** Every kernel is additive on its target list *)

Section KernelsAdditive.
Context {num : Type} `{Arith num}.
Variable G : Globals num.
Variable random : nat -> num.
Variable f : Force num.
Hypothesis Hok : layout_ok G.

Local Abbreviation agreeF := (agree_off G (F_X G) (F_Y G) (F_Z G)).
Local Abbreviation additiveF := (additive_on G (F_X G) (F_Y G) (F_Z G)).
Local Abbreviation additiveV := (additive_on G (V_X G) (V_Y G) (V_Z G)).

Lemma layout_field_lt k o :
  fields G !! k = Some o -> (o < STATE_SIZE G)%nat.
Proof using Hok.
  intros Hk. pose proof (layout_bounds G Hok) as Hb.
  rewrite Forall_lookup in Hb. by eapply Hb.
Qed.

(** A read of a field other than a force accumulator. *)
Lemma rd_agreeF s s' q k o :
  agreeF s s' -> fields G !! k = Some o -> (k < 6 \/ k = 9)%nat ->
  rd s (ix G q o) = rd s' (ix G q o).
Proof using Hok.
  intros Hag Hk Hr. apply rd_lookup, Hag.
  - by eapply layout_field_lt.
  - apply (layout_distinct G Hok k 6); [done | done | lia].
  - apply (layout_distinct G Hok k 7); [done | done | lia].
  - apply (layout_distinct G Hok k 8); [done | done | lia].
Qed.

Lemma F_X_written : F_X G ∈ [F_X G; F_Y G; F_Z G].
Proof using Type. repeat constructor. Qed.

Lemma F_Y_written : F_Y G ∈ [F_X G; F_Y G; F_Z G].
Proof using Type. repeat constructor. Qed.

Lemma F_Z_written : F_Z G ∈ [F_X G; F_Y G; F_Z G].
Proof using Type. repeat constructor. Qed.

Lemma singleton_in (T : list nat) q : q ∈ T -> forall x, x ∈ [q] -> x ∈ T.
Proof using Type.
  intros Hq x Hx. by apply list_elem_of_singleton in Hx as ->.
Qed.

Lemma additive_gravity_fold xs :
  additiveF (fold_left (simp_gravity_step G f) xs) xs.
Proof using Hok.
  pose proof (layout_F_lt G Hok) as Hlt.
  apply additive_fold. intros q Hq.
  apply (additive_mono G _ _ _ _ [q]); [by apply singleton_in|].
  apply (additive_param G _ _ _
           (fun c s => add_to s (ix G q (F_Z G)) c)
           (fun s => mul (rd s (ix G q (MASS G))) (_magnitude f))).
  - intros c. apply additive_add_to; [done | apply F_Z_written].
  - intros s s' Hag.
    by rewrite (rd_agreeF s s' q 9 (MASS G) Hag)
      by first [reflexivity | lia].
Qed.

Lemma additive_gravity : additiveF (apply_simp_gravity G f) (_p f).
Proof using Hok. apply additive_gravity_fold. Qed.

Lemma additive_drag_fold xs : additiveF (fold_left (drag_step G f) xs) xs.
Proof using Hok.
  pose proof (layout_F_lt G Hok) as Hlt.
  apply additive_fold. intros q Hq.
  apply (additive_mono G _ _ _ _ [q]); [by apply singleton_in|].
  apply (additive_comp G _ _ _
           (fun s =>
              let s1 := sub_from s (ix G q (F_X G))
                          (mul (rd s (ix G q (V_X G)))
                               (mul (_x f) (_magnitude f))) in
              sub_from s1 (ix G q (F_Y G))
                (mul (rd s1 (ix G q (V_Y G)))
                     (mul (_y f) (_magnitude f))))
           (fun s2 =>
              sub_from s2 (ix G q (F_Z G))
                (mul (rd s2 (ix G q (V_Z G)))
                     (mul (_z f) (_magnitude f))))).
  - apply (additive_comp G _ _ _
             (fun s =>
                sub_from s (ix G q (F_X G))
                  (mul (rd s (ix G q (V_X G)))
                       (mul (_x f) (_magnitude f))))
             (fun s1 =>
                sub_from s1 (ix G q (F_Y G))
                  (mul (rd s1 (ix G q (V_Y G)))
                       (mul (_y f) (_magnitude f))))).
    + apply (additive_param G _ _ _
               (fun c s => sub_from s (ix G q (F_X G)) c)
               (fun s => mul (rd s (ix G q (V_X G)))
                             (mul (_x f) (_magnitude f)))).
      * intros c. apply additive_sub_from; [done | apply F_X_written].
      * intros s s' Hag.
        by rewrite (rd_agreeF s s' q 3 (V_X G) Hag)
          by first [reflexivity | lia].
    + apply (additive_param G _ _ _
               (fun c s => sub_from s (ix G q (F_Y G)) c)
               (fun s => mul (rd s (ix G q (V_Y G)))
                             (mul (_y f) (_magnitude f)))).
      * intros c. apply additive_sub_from; [done | apply F_Y_written].
      * intros s s' Hag.
        by rewrite (rd_agreeF s s' q 4 (V_Y G) Hag)
          by first [reflexivity | lia].
  - apply (additive_param G _ _ _
             (fun c s => sub_from s (ix G q (F_Z G)) c)
             (fun s => mul (rd s (ix G q (V_Z G)))
                           (mul (_z f) (_magnitude f)))).
    + intros c. apply additive_sub_from; [done | apply F_Z_written].
    + intros s s' Hag.
      by rewrite (rd_agreeF s s' q 5 (V_Z G) Hag)
        by first [reflexivity | lia].
Qed.

Lemma additive_drag : additiveF (apply_drag G f) (_p f).
Proof using Hok. apply additive_drag_fold. Qed.

Lemma additive_wind_from xs T :
  (forall x, x ∈ xs -> x ∈ T) ->
  forall c,
    additiveF (fun s => fst (fold_left (wind_step G f random) xs (s, c)))
              T.
Proof using Hok.
  pose proof (layout_F_lt G Hok) as Hlt.
  induction xs as [|q xs IH]; intros Hin c.
  - apply additive_id.
  - apply (additive_comp G _ _ _
             (fun s =>
                add_to
                  (add_to
                     (add_to s (ix G q (F_X G))
                        (mul (mul (_x f) (_magnitude f))
                             (gust random c)))
                     (ix G q (F_Y G))
                     (mul (mul (_y f) (_magnitude f))
                          (gust random (c + 1))))
                  (ix G q (F_Z G))
                  (mul (mul (_z f) (_magnitude f)) (gust random (c + 2))))
             (fun s => fst (fold_left (wind_step G f random) xs
                              (s, c + 3)))).
    + apply (additive_mono G _ _ _ _ [q]);
        [apply singleton_in, Hin; by left|].
      apply (additive_add3 G _ _ _ Hlt q
               (Vec3 (mul (mul (_x f) (_magnitude f)) (gust random c))
                     (mul (mul (_y f) (_magnitude f))
                          (gust random (c + 1)))
                     (mul (mul (_z f) (_magnitude f))
                          (gust random (c + 2))))).
    + apply IH. intros x Hx. apply Hin. by right.
Qed.

Lemma additive_wind : additiveF (apply_wind G f random) (_p f).
Proof using Hok. by apply additive_wind_from. Qed.

Lemma additive_add_to_o k w v :
  w ∈ [F_X G; F_Y G; F_Z G] ->
  additiveF (fun s => add_to_o s (ixo G (_p f !! k) w) v) (_p f).
Proof using Hok.
  intros Hw. destruct (_p f !! k) as [q|] eqn:Hk; simpl.
  - apply (additive_mono G _ _ _ _ [q]).
    + apply singleton_in. by eapply list_elem_of_lookup_2.
    + apply additive_add_to; [by apply layout_F_lt | done].
  - apply additive_id.
Qed.

Lemma rdo_agreeF s s' q k o :
  agreeF s s' -> fields G !! k = Some o -> (k < 6 \/ k = 9)%nat ->
  rdo s (ixo G q o) = rdo s' (ixo G q o).
Proof using Hok.
  intros Hag Hk Hr. destruct q as [q|]; simpl; [|done].
  by eapply rd_agreeF.
Qed.

Lemma spring_F_agree s s' :
  agreeF s s' -> spring_F G f s = spring_F G f s'.
Proof using Hok.
  intros Hag. unfold spring_F, spring_distance, spring_L.
  rewrite !(rdo_agreeF s s' _ 0 (P_X G) Hag)
    by first [reflexivity | lia].
  rewrite !(rdo_agreeF s s' _ 1 (P_Y G) Hag)
    by first [reflexivity | lia].
  rewrite !(rdo_agreeF s s' _ 2 (P_Z G) Hag)
    by first [reflexivity | lia].
  reflexivity.
Qed.

Lemma additive_spring : additiveF (apply_spring G f) (_p f).
Proof using Hok.
  apply (additive_param G _ _ _
           (fun F s =>
              let p0 := _p f !! 0 in
              let p1 := _p f !! 1 in
              let s1 := add_to_o s (ixo G p0 (F_X G)) (vx F) in
              let s2 := add_to_o s1 (ixo G p0 (F_Y G)) (vy F) in
              let s3 := add_to_o s2 (ixo G p0 (F_Z G)) (vz F) in
              let s4 := add_to_o s3 (ixo G p1 (F_X G)) (neg (vx F)) in
              let s5 := add_to_o s4 (ixo G p1 (F_Y G)) (neg (vy F)) in
              add_to_o s5 (ixo G p1 (F_Z G)) (neg (vz F)))
           (spring_F G f)).
  - intros F. cbv zeta.
    repeat first
      [ apply (additive_add_to_o 0 (F_X G)), F_X_written
      | apply (additive_comp G _ _ _ _
                 (fun s => add_to_o s (ixo G (_p f !! 1) (F_Z G))
                             (neg (vz F))));
          [|apply additive_add_to_o, F_Z_written]
      | apply (additive_comp G _ _ _ _
                 (fun s => add_to_o s (ixo G (_p f !! 1) (F_Y G))
                             (neg (vy F))));
          [|apply additive_add_to_o, F_Y_written]
      | apply (additive_comp G _ _ _ _
                 (fun s => add_to_o s (ixo G (_p f !! 1) (F_X G))
                             (neg (vx F))));
          [|apply additive_add_to_o, F_X_written]
      | apply (additive_comp G _ _ _ _
                 (fun s => add_to_o s (ixo G (_p f !! 0) (F_Z G))
                             (vz F)));
          [|apply additive_add_to_o, F_Z_written]
      | apply (additive_comp G _ _ _ _
                 (fun s => add_to_o s (ixo G (_p f !! 0) (F_Y G))
                             (vy F)));
          [|apply additive_add_to_o, F_Y_written] ].
  - apply spring_F_agree.
Qed.

(** The predator is read from position fields. *)
Lemma rdZ_predator_agree s s' k o :
  agreeF s s' -> fields G !! k = Some o -> (k < 3)%nat ->
  rdZ s (predator_ix G o) = rdZ s' (predator_ix G o).
Proof using Hok.
  intros Hag Hk Hr. unfold rdZ, predator_ix.
  pose proof (layout_field_lt k o Hk) as Hlt.
  destruct (BOID_PARTICLE_COUNT G) as [|n] eqn:Hn.
  - assert (((Z.of_nat 0 - 1) * Z.of_nat (STATE_SIZE G) + Z.of_nat o
             <? 0)%Z = true) as -> by (apply Z.ltb_lt; lia).
    done.
  - assert (((Z.of_nat (S n) - 1) * Z.of_nat (STATE_SIZE G) + Z.of_nat o
             <? 0)%Z = false) as -> by (apply Z.ltb_ge; nia).
    assert (Z.to_nat ((Z.of_nat (S n) - 1) * Z.of_nat (STATE_SIZE G)
                      + Z.of_nat o) = ix G n o) as ->.
    { unfold ix. nia. }
    eapply rd_agreeF; [done | done | lia].
Qed.

Lemma x_p_agree s s' : agreeF s s' -> x_p G s = x_p G s'.
Proof using Hok.
  intros Hag. unfold x_p.
  by rewrite (rdZ_predator_agree s s' 0 (P_X G) Hag),
             (rdZ_predator_agree s s' 1 (P_Y G) Hag),
             (rdZ_predator_agree s s' 2 (P_Z G) Hag)
    by first [reflexivity | lia].
Qed.

Lemma additive_flock : additiveF (apply_flock G f) (_p f).
Proof using Hok.
  apply (additive_param G _ _ _
           (fun xp s =>
              fold_left (flock_step G f xp)
                (seq 0 (List.length (_p f))) s)
           (x_p G)); [|apply x_p_agree].
  intros xp.
  apply (additive_loop G _ _ _ (layout_F_lt G Hok) (particle f)
           (flock_step G f xp)
           (fun s i => Some (flock_a_i G f xp s i))).
  - intros s i. reflexivity.
  - intros s s' i Hag. f_equal. by apply flock_a_i_agree.
  - intros i Hi. apply elem_of_seq in Hi. apply nth_elem_of. lia.
Qed.

Lemma additive_line_attractor :
  additiveF (apply_line_attractor G f) (_p f).
Proof using Hok.
  apply (additive_loop G _ _ _ (layout_F_lt G Hok) (fun q => q)
           (line_attractor_step G f)
           (fun s q =>
              if line_guard G f s q then Some (a_ai G f s q) else None)).
  - apply line_step_spec.
  - by apply line_delta_agree.
  - done.
Qed.

Lemma additive_uniform_point_attractor :
  additiveF (apply_uniform_point_attractor G f) (_p f).
Proof using Hok.
  apply (additive_loop G _ _ _ (layout_F_lt G Hok) (fun q => q)
           (uniform_point_attractor_step G f)
           (fun s q => Some (attractor_dir G f s q))).
  - intros s q. reflexivity.
  - intros s s' q Hag. unfold attractor_dir.
    by rewrite (position_agree_F G Hok s s' q Hag).
  - done.
Qed.

Lemma additive_point_attractor :
  additiveF (apply_point_attractor G f) (_p f).
Proof using Hok.
  apply (additive_loop G _ _ _ (layout_F_lt G Hok) (fun q => q)
           (point_attractor_step G f)
           (fun s q =>
              if point_skip G f s q then None
              else Some (point_pull G f s q))).
  - apply point_step_spec.
  - by apply point_delta_agree.
  - done.
Qed.

Lemma additive_vortex : additiveV (apply_vortex G f) (_p f).
Proof using Hok.
  apply (additive_loop G _ _ _ (layout_V_lt G Hok) (fun q => q)
           (vortex_step G f)
           (fun s q =>
              if vortex_guard G f s q then Some (vortex_dv G f s q)
              else None)).
  - apply vortex_step_spec.
  - by apply vortex_delta_agree.
  - done.
Qed.

(** [apply] for any force but a vortex. *)
Lemma apply_additive_F :
  _type f <> FORCE_TYPE.FORCE_VORTEX ->
  additiveF (apply G f random) (_p f).
Proof using Hok.
  intros Hty. unfold apply, apply_log.
  destruct (negb (_enabled f)); [apply additive_id|].
  repeat match goal with
         | |- context [if ?b then _ else _] => destruct b eqn:?
         end; cbn [fst]; try apply additive_id.
  - apply additive_gravity.
  - apply additive_drag.
  - apply additive_wind.
  - apply additive_spring.
  - apply additive_flock.
  - apply additive_line_attractor.
  - exfalso. apply Hty. by apply Nat.eqb_eq.
  - apply additive_uniform_point_attractor.
  - apply additive_point_attractor.
Qed.

(** [apply] for a vortex. *)
Lemma apply_additive_V :
  _type f = FORCE_TYPE.FORCE_VORTEX ->
  additiveV (apply G f random) (_p f).
Proof using Hok.
  intros Hty. unfold apply, apply_log. rewrite Hty.
  destruct (negb (_enabled f)); [apply additive_id|].
  cbn [fst Nat.eqb FORCE_TYPE.FORCE_VORTEX
       FORCE_TYPE.FORCE_SIMP_GRAVITY FORCE_TYPE.FORCE_DRAG
       FORCE_TYPE.FORCE_WIND FORCE_TYPE.FORCE_SPRING
       FORCE_TYPE.FORCE_FLOCK FORCE_TYPE.FORCE_LINE_ATTRACTOR].
  apply additive_vortex.
Qed.

(** X5.  [apply] touches target particles only: every field of a
    particle that the target list does not name comes back unchanged,
    whatever the type of the force. *)
Theorem apply_leaves_other_particles (s : Float32Array num) (q o : nat) :
  q ∉ _p f -> (o < STATE_SIZE G)%nat ->
  apply G f random s !! ix G q o = s !! ix G q o.
Proof using Hok.
  intros Hq Ho.
  destruct (decide (_type f = FORCE_TYPE.FORCE_VORTEX)) as [Hty|Hty].
  - by apply (additive_untouched G _ _ _ _ (_p f) s q o
                (apply_additive_V Hty)).
  - by apply (additive_untouched G _ _ _ _ (_p f) s q o
                (apply_additive_F Hty)).
Qed.
End KernelsAdditive.

(** X6.  Two forces with no target particle in common, both vortices or
  neither a vortex, can be applied in either order: the resulting buffers
  are equal element for element, whatever the rounding.  Each force is
  given the same random draws in both orders. *)
Theorem disjoint_forces_commute {num : Type} `{Arith num} (G : Globals num)
  (f g : Force num) (random_f random_g : nat -> num)
  (s : Float32Array num) :
layout_ok G ->
(_type f = FORCE_TYPE.FORCE_VORTEX <-> _type g = FORCE_TYPE.FORCE_VORTEX) ->
(forall q, q ∈ _p f -> q ∉ _p g) ->
apply G f random_f (apply G g random_g s)
= apply G g random_g (apply G f random_f s).
Proof.
intros Hok Hcls Hdis.
destruct (decide (_type f = FORCE_TYPE.FORCE_VORTEX)) as [Hf|Hf].
- apply (additive_commute G (V_X G) (V_Y G) (V_Z G) _ _ (_p f) (_p g)).
  + by apply apply_additive_V.
  + apply apply_additive_V; [done | by apply Hcls].
  + done.
- apply (additive_commute G (F_X G) (F_Y G) (F_Z G) _ _ (_p f) (_p g)).
  + by apply apply_additive_F.
  + apply apply_additive_F; [done|]. intros Hg. apply Hf. by apply Hcls.
  + done.
Qed.

(** ** What the simple kernels add to a target particle *)

Section Effects.
Context {num : Type} `{Arith num}.
Variable G : Globals num.
Variable random : nat -> num.
Variable f : Force num.
Hypothesis Hok : layout_ok G.

Lemma fold_around {A : Type}
    (body : Float32Array num -> A -> Float32Array num) l1 x l2 s :
  fold_left body (l1 ++ x :: l2) s
  = fold_left body l2 (body (fold_left body l1 s) x).
Proof using Type. by rewrite fold_left_app. Qed.

Lemma rd_add_to_eq (s : Float32Array num) i v :
  (i < List.length s)%nat ->
  rd (add_to s i v) i = fround (add (rd s i) v).
Proof using Type.
  intros Hi. apply (rd_fmap s _ _ (fun x => fround (add x v)) Hi).
  apply lookup_add_to_eq.
Qed.

Lemma rd_add_to_ne (s : Float32Array num) i j v :
  i <> j -> rd (add_to s i v) j = rd s j.
Proof using Type. intros Hne. by apply rd_lookup, lookup_add_to_ne. Qed.

Lemma rd_sub_from_eq (s : Float32Array num) i v :
  (i < List.length s)%nat ->
  rd (sub_from s i v) i = fround (sub (rd s i) v).
Proof using Type.
  intros Hi. apply (rd_fmap s _ _ (fun x => fround (sub x v)) Hi).
  apply lookup_sub_from_eq.
Qed.

Lemma rd_sub_from_ne (s : Float32Array num) i j v :
  i <> j -> rd (sub_from s i v) j = rd s j.
Proof using Type. intros Hne. by apply rd_lookup, lookup_sub_from_ne. Qed.

(** Two different fields of one particle are two different elements. *)
Lemma ix_field_ne q j k a b :
  fields G !! j = Some a -> fields G !! k = Some b -> j <> k ->
  ix G q a <> ix G q b.
Proof using Hok.
  intros Hj Hk Hne. apply ix_ne.
  - by eapply layout_field_lt.
  - by eapply layout_field_lt.
  - right. by eapply layout_distinct.
Qed.

Lemma not_in_app_l (q : nat) l1 l2 : q ∉ l1 ++ l2 -> q ∉ l1.
Proof using Type. intros Hn Hin. apply Hn, elem_of_app. by left. Qed.

Lemma not_in_app_r (q : nat) l1 l2 : q ∉ l1 ++ l2 -> q ∉ l2.
Proof using Type. intros Hn Hin. apply Hn, elem_of_app. by right. Qed.

(** *** FORCE_SIMP_GRAVITY *)

Lemma apply_is_simp_gravity s :
  _enabled f = true -> _type f = FORCE_TYPE.FORCE_SIMP_GRAVITY ->
  apply G f random s = apply_simp_gravity G f s.
Proof using Type.
  intros Hon Hty. unfold apply, apply_log. rewrite Hon, Hty. reflexivity.
Qed.

Lemma simp_gravity_on_target (s : Float32Array num) (q : nat) :
  listed_once (_p f) q -> in_buffer G s q ->
  force_acc G (apply_simp_gravity G f s) q
  = Vec3 (vx (force_acc G s q)) (vy (force_acc G s q))
      (fround (add (vz (force_acc G s q))
                   (mul (rd s (ix G q (MASS G))) (_magnitude f)))).
Proof using Hok.
  intros (l1 & l2 & Hp & Hnin) Hb.
  unfold apply_simp_gravity. rewrite Hp, fold_around.
  set (s1 := fold_left (simp_gravity_step G f) l1 s).
  assert (forall o, (o < STATE_SIZE G)%nat ->
                    s1 !! ix G q o = s !! ix G q o) as H1.
  { intros o Ho.
    apply (additive_untouched G _ _ _ _ l1 s q o
             (additive_gravity_fold G f Hok l1));
      [by eapply not_in_app_l | done]. }
  assert (forall o s2, (o < STATE_SIZE G)%nat ->
            fold_left (simp_gravity_step G f) l2 s2 !! ix G q o
            = s2 !! ix G q o) as H2.
  { intros o s2 Ho.
    apply (additive_untouched G _ _ _ _ l2 s2 q o
             (additive_gravity_fold G f Hok l2));
      [by eapply not_in_app_r | done]. }
  assert (List.length s1 = List.length s) as Hlen.
  { apply fold_left_length. intros s' x. apply length_add_to. }
  destruct (layout_F_lt G Hok) as (HX & HY & HZ).
  assert (MASS G < STATE_SIZE G)%nat as HM
    by (by apply (layout_field_lt G Hok 9)).
  unfold force_acc, field3. cbn [vx vy vz]. unfold simp_gravity_step.
  f_equal.
  - rewrite (rd_lookup _ _ _ (H2 _ _ HX)).
    rewrite rd_add_to_ne by (by apply (ix_field_ne q 8 6)).
    by apply rd_lookup, H1.
  - rewrite (rd_lookup _ _ _ (H2 _ _ HY)).
    rewrite rd_add_to_ne by (by apply (ix_field_ne q 8 7)).
    by apply rd_lookup, H1.
  - rewrite (rd_lookup _ _ _ (H2 _ _ HZ)).
    rewrite rd_add_to_eq
      by (rewrite Hlen; by apply in_buffer_ix).
    by rewrite (rd_lookup _ _ _ (H1 _ HZ)), (rd_lookup _ _ _ (H1 _ HM)).
Qed.

(** X7.  Gravity on a target listed once: F_Z gets the mass of the
    particle times the magnitude added, F_X and F_Y are left as they
    were.  The sign is that of the magnitude: the kernel adds, it does not
    subtract. *)
Theorem gravity_adds_mass_times_magnitude (s : Float32Array num)
    (q : nat) :
  _enabled f = true -> _type f = FORCE_TYPE.FORCE_SIMP_GRAVITY ->
  listed_once (_p f) q -> in_buffer G s q ->
  force_acc G (apply G f random s) q
  = Vec3 (vx (force_acc G s q)) (vy (force_acc G s q))
      (fround (add (vz (force_acc G s q))
                   (mul (rd s (ix G q (MASS G))) (_magnitude f)))).
Proof using Hok.
  intros Hon Hty Hq Hb.
  rewrite (apply_is_simp_gravity s Hon Hty).
  by apply simp_gravity_on_target.
Qed.

(** *** FORCE_DRAG *)

Lemma apply_is_drag s :
  _enabled f = true -> _type f = FORCE_TYPE.FORCE_DRAG ->
  apply G f random s = apply_drag G f s.
Proof using Type.
  intros Hon Hty. unfold apply, apply_log. rewrite Hon, Hty. reflexivity.
Qed.

Lemma drag_on_target (s : Float32Array num) (q : nat) :
  listed_once (_p f) q -> in_buffer G s q ->
  let F := force_acc G s q in
  let V := velocity_acc G s q in
  force_acc G (apply_drag G f s) q
  = Vec3 (fround (sub (vx F) (mul (vx V) (mul (_x f) (_magnitude f)))))
         (fround (sub (vy F) (mul (vy V) (mul (_y f) (_magnitude f)))))
         (fround (sub (vz F) (mul (vz V) (mul (_z f) (_magnitude f))))).
Proof using Hok.
  intros (l1 & l2 & Hp & Hnin) Hb F V. subst F V.
  unfold apply_drag. rewrite Hp, fold_around.
  set (s1 := fold_left (drag_step G f) l1 s).
  assert (forall o, (o < STATE_SIZE G)%nat ->
                    s1 !! ix G q o = s !! ix G q o) as H1.
  { intros o Ho.
    apply (additive_untouched G _ _ _ _ l1 s q o
             (additive_drag_fold G f Hok l1));
      [by eapply not_in_app_l | done]. }
  assert (forall o s2, (o < STATE_SIZE G)%nat ->
            fold_left (drag_step G f) l2 s2 !! ix G q o
            = s2 !! ix G q o) as H2.
  { intros o s2 Ho.
    apply (additive_untouched G _ _ _ _ l2 s2 q o
             (additive_drag_fold G f Hok l2));
      [by eapply not_in_app_r | done]. }
  assert (List.length s1 = List.length s) as Hlen.
  { apply fold_left_length. intros s' x. unfold drag_step.
    by rewrite !length_sub_from. }
  destruct (layout_F_lt G Hok) as (HX & HY & HZ).
  destruct (layout_V_lt G Hok) as (HVX & HVY & HVZ).
  assert (forall o, (o < STATE_SIZE G)%nat ->
                    (ix G q o < List.length s1)%nat) as Hin.
  { intros o Ho. rewrite Hlen. by apply in_buffer_ix. }
  unfold force_acc, velocity_acc, field3. cbn [vx vy vz].
  unfold drag_step. cbv zeta. f_equal.
  - rewrite (rd_lookup _ _ _ (H2 _ _ HX)).
    rewrite rd_sub_from_ne by (by apply (ix_field_ne q 8 6)).
    rewrite rd_sub_from_ne by (by apply (ix_field_ne q 7 6)).
    rewrite rd_sub_from_eq by auto.
    by rewrite (rd_lookup _ _ _ (H1 _ HX)), (rd_lookup _ _ _ (H1 _ HVX)).
  - rewrite (rd_lookup _ _ _ (H2 _ _ HY)).
    rewrite rd_sub_from_ne by (by apply (ix_field_ne q 8 7)).
    rewrite rd_sub_from_eq by (rewrite length_sub_from; auto).
    rewrite !rd_sub_from_ne
      by first [by apply (ix_field_ne q 6 7) | by apply (ix_field_ne q 6 4)].
    by rewrite (rd_lookup _ _ _ (H1 _ HY)), (rd_lookup _ _ _ (H1 _ HVY)).
  - rewrite (rd_lookup _ _ _ (H2 _ _ HZ)).
    rewrite rd_sub_from_eq by (rewrite !length_sub_from; auto).
    rewrite !rd_sub_from_ne
      by first [ by apply (ix_field_ne q 7 8) | by apply (ix_field_ne q 6 8)
               | by apply (ix_field_ne q 7 5)
               | by apply (ix_field_ne q 6 5) ].
    by rewrite (rd_lookup _ _ _ (H1 _ HZ)), (rd_lookup _ _ _ (H1 _ HVZ)).
Qed.

(** X8.  Drag on a target listed once: each component of the velocity,
    times the matching component of the direction times the magnitude, is
    subtracted from the matching force accumulator. *)
Theorem drag_subtracts_scaled_velocity (s : Float32Array num) (q : nat) :
  _enabled f = true -> _type f = FORCE_TYPE.FORCE_DRAG ->
  listed_once (_p f) q -> in_buffer G s q ->
  let F := force_acc G s q in
  let V := velocity_acc G s q in
  force_acc G (apply G f random s) q
  = Vec3 (fround (sub (vx F) (mul (vx V) (mul (_x f) (_magnitude f)))))
         (fround (sub (vy F) (mul (vy V) (mul (_y f) (_magnitude f)))))
         (fround (sub (vz F) (mul (vz V) (mul (_z f) (_magnitude f))))).
Proof using Hok.
  intros Hon Hty Hq Hb F V. subst F V.
  rewrite (apply_is_drag s Hon Hty).
  by apply drag_on_target.
Qed.

(** *** FORCE_WIND *)

Lemma apply_is_wind s :
  _enabled f = true -> _type f = FORCE_TYPE.FORCE_WIND ->
  apply G f random s = apply_wind G f random s.
Proof using Type.
  intros Hon Hty. unfold apply, apply_log. rewrite Hon, Hty. reflexivity.
Qed.

Lemma wind_counter xs : forall s c,
  snd (fold_left (wind_step G f random) xs (s, c))
  = c + 3 * List.length xs.
Proof using Type.
  induction xs as [|x xs IH]; intros s c; simpl; [lia|].
  rewrite IH. lia.
Qed.

(** The gusts of the particle at place [n] of the target list. *)
Lemma wind_gusts l1 q l2 s :
  q ∉ l1 ++ l2 -> in_buffer G s q ->
  force_acc G
    (fst (fold_left (wind_step G f random) (l1 ++ q :: l2) (s, 0))) q
  = glMatrix.vadd (force_acc G s q)
      (Vec3 (mul (mul (_x f) (_magnitude f))
                 (gust random (3 * List.length l1)))
            (mul (mul (_y f) (_magnitude f))
                 (gust random (3 * List.length l1 + 1)))
            (mul (mul (_z f) (_magnitude f))
                 (gust random (3 * List.length l1 + 2)))).
Proof using Hok.
  intros Hnin Hb. rewrite fold_left_app.
  destruct (fold_left (wind_step G f random) l1 (s, 0)) as [s1 c1] eqn:E1.
  assert (c1 = 3 * List.length l1) as ->.
  { pose proof (wind_counter l1 s 0) as Hc. rewrite E1 in Hc. exact Hc. }
  assert (s1 = fst (fold_left (wind_step G f random) l1 (s, 0))) as Hs1
    by (by rewrite E1).
  assert (forall o, (o < STATE_SIZE G)%nat ->
                    s1 !! ix G q o = s !! ix G q o) as H1.
  { intros o Ho. rewrite Hs1.
    apply (additive_untouched G _ _ _ _ l1 s q o
             (additive_wind_from G random f Hok l1 l1 (fun x Hx => Hx) 0));
      [by eapply not_in_app_l | done]. }
  assert (List.length s1 = List.length s) as Hlen
    by (rewrite Hs1; apply length_wind).
  cbn [fold_left]. unfold wind_step at 2.
  set (d := Vec3 (mul (mul (_x f) (_magnitude f))
                      (gust random (3 * List.length l1)))
                 (mul (mul (_y f) (_magnitude f))
                      (gust random (3 * List.length l1 + 1)))
                 (mul (mul (_z f) (_magnitude f))
                      (gust random (3 * List.length l1 + 2)))).
  change (add_to
            (add_to
               (add_to s1 (ix G q (F_X G))
                  (mul (mul (_x f) (_magnitude f))
                       (gust random (3 * List.length l1))))
               (ix G q (F_Y G))
               (mul (mul (_y f) (_magnitude f))
                    (gust random (3 * List.length l1 + 1))))
            (ix G q (F_Z G))
            (mul (mul (_z f) (_magnitude f))
                 (gust random (3 * List.length l1 + 2))))
    with (add3 G (F_X G) (F_Y G) (F_Z G) s1 q d).
  destruct (layout_F_lt G Hok) as (HX & HY & HZ).
  assert (force_acc G
            (fst (fold_left (wind_step G f random) l2
                    (add3 G (F_X G) (F_Y G) (F_Z G) s1 q d,
                     3 * List.length l1 + 3))) q
          = force_acc G (add3 G (F_X G) (F_Y G) (F_Z G) s1 q d) q) as ->.
  { unfold force_acc, field3.
    f_equal; apply rd_lookup;
      apply (additive_untouched G _ _ _ _ l2 _ q _
               (additive_wind_from G random f Hok l2 l2 (fun x Hx => Hx)
                  (3 * List.length l1 + 3)));
      first [by eapply not_in_app_r | done]. }
  unfold force_acc.
  rewrite (field3_add3_same G _ _ _ (layout_F_lt G Hok)
             (layout_F_ne G Hok))
    by (unfold in_buffer; by rewrite Hlen).
  f_equal. unfold field3.
  by rewrite (rd_lookup _ _ _ (H1 _ HX)), (rd_lookup _ _ _ (H1 _ HY)),
             (rd_lookup _ _ _ (H1 _ HZ)).
Qed.

(** X9.  Wind draws three random numbers for every target, in list
    order: the particle at place [n] of the list, if listed once, gets
    [x m (2 r - 1)], [y m (2 r' - 1)], [z m (2 r'' - 1)] added, where [r],
    [r'], [r''] are the draws number [3n], [3n + 1], [3n + 2] of the
    call. *)
Theorem wind_adds_three_gusts (s : Float32Array num) (l1 l2 : list nat)
    (q : nat) :
  _enabled f = true -> _type f = FORCE_TYPE.FORCE_WIND ->
  _p f = l1 ++ q :: l2 -> q ∉ l1 ++ l2 -> in_buffer G s q ->
  let n := List.length l1 in
  let g k := sub (mul (random (3 * n + k)) (lit 2)) (lit 1) in
  force_acc G (apply G f random s) q
  = glMatrix.vadd (force_acc G s q)
      (Vec3 (mul (mul (_x f) (_magnitude f)) (g 0))
            (mul (mul (_y f) (_magnitude f)) (g 1))
            (mul (mul (_z f) (_magnitude f)) (g 2))).
Proof using Hok.
  intros Hon Hty Hp Hnin Hb n g. subst n g.
  rewrite (apply_is_wind s Hon Hty). unfold apply_wind. rewrite Hp.
  rewrite (wind_gusts l1 q l2 s Hnin Hb). unfold gust.
  by rewrite Nat.add_0_r.
Qed.

(** *** FORCE_UNIFORM_POINT_ATTRACTOR *)

Lemma apply_is_uniform_point_attractor s :
  _enabled f = true ->
  _type f = FORCE_TYPE.FORCE_UNIFORM_POINT_ATTRACTOR ->
  apply G f random s = apply_uniform_point_attractor G f s.
Proof using Type.
  intros Hon Hty. unfold apply, apply_log. rewrite Hon, Hty. reflexivity.
Qed.

(** X10.  The uniform point attractor adds the offset from the particle
    to the anchor, as it is: no test, no cutoff, no scaling by [pow], [L]
    or [r]. *)
Theorem uniform_attractor_adds_offset (s : Float32Array num) (q : nat) :
  _enabled f = true ->
  _type f = FORCE_TYPE.FORCE_UNIFORM_POINT_ATTRACTOR ->
  listed_once (_p f) q -> in_buffer G s q ->
  force_acc G (apply G f random s) q
  = glMatrix.vadd (force_acc G s q)
      (glMatrix.vsub (_x_a f) (position G s q)).
Proof using Hok.
  intros Hon Hty (l1 & l2 & Hp & Hnin) Hb.
  rewrite (apply_is_uniform_point_attractor s Hon Hty).
  unfold apply_uniform_point_attractor, force_acc. rewrite Hp.
  apply (loop_field3_once G (F_X G) (F_Y G) (F_Z G)
           (layout_F_lt G Hok) (layout_F_ne G Hok) nat (fun q => q)
           (uniform_point_attractor_step G f)
           (fun s q => Some (attractor_dir G f s q))).
  - intros s1 x. reflexivity.
  - intros s1 s2 x Hag. unfold attractor_dir.
    by rewrite (position_agree_F G Hok s1 s2 x Hag).
  - done.
  - intros y Hy ->. done.
  - reflexivity.
Qed.

(** *** FORCE_FLOCK *)

Lemma flock_on_target (s : Float32Array num) (i : nat) :
  (i < List.length (_p f))%nat ->
  (forall j, (j < List.length (_p f))%nat -> j <> i ->
             particle f j <> particle f i) ->
  in_buffer G s (particle f i) ->
  force_acc G (apply_flock G f s) (particle f i)
  = glMatrix.vadd (force_acc G s (particle f i))
      (flock_a_i G f (x_p G s) s i).
Proof using Hok.
  intros Hi Hone Hb.
  unfold apply_flock, force_acc.
  assert (seq 0 (List.length (_p f))
          = seq 0 i ++ i :: seq (S i) (List.length (_p f) - S i)) as ->.
  { replace (List.length (_p f)) with (i + S (List.length (_p f) - S i))
      at 1 by lia.
    rewrite seq_app. reflexivity. }
  apply (loop_field3_once G (F_X G) (F_Y G) (F_Z G)
           (layout_F_lt G Hok) (layout_F_ne G Hok) nat (particle f)
           (flock_step G f (x_p G s))
           (fun s1 i => Some (flock_a_i G f (x_p G s) s1 i))).
  - intros s1 x. reflexivity.
  - intros s1 s2 x Hag. f_equal. by apply flock_a_i_agree.
  - done.
  - intros j Hj. apply Hone.
    + apply elem_of_app in Hj as [Hj|Hj]; apply elem_of_seq in Hj; lia.
    + apply elem_of_app in Hj as [Hj|Hj]; apply elem_of_seq in Hj; lia.
  - reflexivity.
Qed.

(** X11.  The flock updates the buffer in place, boid after boid, yet
    every boid gets the acceleration computed from the positions and
    velocities the buffer held when [apply] was called: for a boid whose
    particle is named at one place [i] of the list, [a_i] of the initial
    buffer is added to its force accumulator. *)
Theorem flock_adds_initial_acceleration (s : Float32Array num) (i : nat) :
  _enabled f = true -> _type f = FORCE_TYPE.FORCE_FLOCK ->
  (i < List.length (_p f))%nat ->
  (forall j, (j < List.length (_p f))%nat -> j <> i ->
             particle f j <> particle f i) ->
  in_buffer G s (particle f i) ->
  force_acc G (apply G f random s) (particle f i)
  = glMatrix.vadd (force_acc G s (particle f i))
      (flock_a_i G f (x_p G s) s i).
Proof using Hok.
  intros Hon Hty Hi Hone Hb.
  rewrite (apply_is_flock G random f s Hon Hty).
  by apply flock_on_target.
Qed.
End Effects.

(** ** Further facts with real numbers *)

Module RealMore.
Import Ideal IdealFacts AttractorsReal.
Local Open Scope R_scope.

Lemma R_pow_succ x y : 0 < x -> R_pow x (y + 1) = R_pow x y * x.
Proof.
  intros Hx. unfold R_pow. rewrite !Rltb_true by done.
  destruct (Req_dec_T (y + 1) 0) as [E1|E1];
    destruct (Req_dec_T y 0) as [E0|E0].
  - lra.
  - rewrite (Reqb_true (y + 1)), (Reqb_false y) by done.
    replace y with (Ropp 1) by lra.
    rewrite Rpower_Ropp, Rpower_1 by done. field. lra.
  - rewrite (Reqb_false (y + 1)), (Reqb_true y) by done.
    rewrite E0. replace (0 + 1) with 1 by lra.
    rewrite Rpower_1 by done. lra.
  - rewrite (Reqb_false (y + 1)), (Reqb_false y) by done.
    rewrite Rpower_plus, Rpower_1 by done. reflexivity.
Qed.

(** *** Spring *)

(** X12.  A spring at its natural length (not zero) adds nothing: the
    force is the zero vector and the accumulators of two distinct targets
    inside the buffer are left as they were. *)
Theorem spring_at_rest_adds_nothing (G : Globals R) (random : nat -> R)
    (f : Force R) (s : Float32Array R) (p0 p1 : nat) :
  layout_ok G ->
  _enabled f = true -> _type f = FORCE_TYPE.FORCE_SPRING ->
  _p f !! 0%nat = Some p0 -> _p f !! 1%nat = Some p1 -> p0 <> p1 ->
  in_buffer G s p0 -> in_buffer G s p1 ->
  spring_distance G f s = _lr f -> _lr f <> 0 ->
  spring_F G f s = Vec3 0 0 0
  /\ force_acc G (apply G f random s) p0 = force_acc G s p0
  /\ force_acc G (apply G f random s) p1 = force_acc G s p1.
Proof.
  intros Hok Hon Hty H0 H1 Hne Hb0 Hb1 Hd Hlr.
  assert (spring_F G f s = Vec3 0 0 0) as HF.
  { unfold spring_F. destruct (spring_L G f s) as [[Lx Ly] Lz].
    rewrite Hd. cbn [Math_min div mul sub lit IdealArith].
    change (Q2R 12) with (Q2R (inject_Z 12)). rewrite Q2R_Z.
    f_equal.
    - replace (_k f * (_lr f - _lr f) * Lx / _lr f) with 0
        by (field; done).
      apply Rmin_left. lra.
    - replace (_k f * (_lr f - _lr f) * Ly / _lr f) with 0
        by (field; done).
      apply Rmin_left. lra.
    - replace (_k f * (_lr f - _lr f) * Lz / _lr f) with 0
        by (field; done).
      apply Rmin_left. lra. }
  split; [exact HF|].
  rewrite (apply_is_spring G random f s Hon Hty).
  destruct (apply_spring_accumulators G f s p0 p1 Hok H0 H1 Hne Hb0 Hb1)
    as [E0 E1].
  rewrite E0, E1, HF. unfold glMatrix.vadd, vneg, force_acc, field3.
  cbn [vx vy vz fround add neg IdealArith].
  split; f_equal; lra.
Qed.

(** X13.  The limit of the spring is one-sided: no component of the
    force is ever above 12, but a component that points down an axis is
    not limited.  With the second end at (-2, 0, 0), the first at the
    origin and natural length 1, the force is (-k, 0, 0) for every
    stiffness k >= 0. *)
Theorem spring_limit_is_one_sided (G : Globals R) (f : Force R)
    (s : Float32Array R) :
  _p f = [0; 1]%nat -> _lr f = 1 -> 0 <= _k f ->
  position G s 0 = Vec3 0 0 0 -> position G s 1 = Vec3 (- 2) 0 0 ->
  (forall (G' : Globals R) (f' : Force R) (s' : Float32Array R),
      vx (spring_F G' f' s') <= 12 /\ vy (spring_F G' f' s') <= 12
      /\ vz (spring_F G' f' s') <= 12)
  /\ spring_F G f s = Vec3 (- _k f) 0 0.
Proof.
  intros Hp Hlr Hk H0 H1. split.
  - intros G' f' s'. unfold spring_F.
    destruct (spring_L G' f' s') as [[Lx Ly] Lz].
    cbn [vx vy vz Math_min lit IdealArith].
    change (Q2R 12) with (Q2R (inject_Z 12)). rewrite Q2R_Z.
    repeat split; apply Rmin_r.
  - assert (spring_distance G f s = 2) as Hd.
    { unfold spring_distance.
      rewrite (SpringExample.spring_L_01 G f s _ _ _ _ _ _ Hp H0 H1).
      cbn [Math_sqrt Math_pow add lit IdealArith]. rewrite !R_pow_2.
      replace ((- 2 - 0) * (- 2 - 0) + (0 - 0) * (0 - 0)
               + (0 - 0) * (0 - 0)) with (2 * 2) by ring.
      apply sqrt_square. lra. }
    unfold spring_F. rewrite Hd.
    rewrite (SpringExample.spring_L_01 G f s _ _ _ _ _ _ Hp H0 H1), Hlr.
    cbn [Math_min div mul sub lit IdealArith].
    change (Q2R 12) with (Q2R (inject_Z 12)). rewrite Q2R_Z.
    f_equal.
    + replace (_k f * (2 - 1) * (- 2 - 0) / 2) with (- _k f) by field.
      apply Rmin_left. lra.
    + replace (_k f * (2 - 1) * (0 - 0) / 2) with 0 by field.
      apply Rmin_left. lra.
    + replace (_k f * (2 - 1) * (0 - 0) / 2) with 0 by field.
      apply Rmin_left. lra.
Qed.

(** *** Drag and wind *)

(** X14.  Drag opposes the velocity: along every axis whose direction
    component times the magnitude is not negative, the change of the force
    accumulator times the velocity is not positive; a target at rest gets
    nothing. *)
Theorem drag_opposes_velocity (G : Globals R) (random : nat -> R)
    (f : Force R) (s : Float32Array R) (q : nat) :
  layout_ok G ->
  _enabled f = true -> _type f = FORCE_TYPE.FORCE_DRAG ->
  listed_once (_p f) q -> in_buffer G s q ->
  let F := force_acc G s q in
  let F' := force_acc G (apply G f random s) q in
  let V := velocity_acc G s q in
  (0 <= _x f * _magnitude f -> (vx F' - vx F) * vx V <= 0)
  /\ (0 <= _y f * _magnitude f -> (vy F' - vy F) * vy V <= 0)
  /\ (0 <= _z f * _magnitude f -> (vz F' - vz F) * vz V <= 0)
  /\ (V = Vec3 0 0 0 -> F' = F).
Proof.
  intros Hok Hon Hty Hq Hb F F' V. subst F F' V.
  rewrite (apply_is_drag G random f s Hon Hty).
  rewrite (drag_on_target G f Hok s q Hq Hb).
  cbn [vx vy vz fround sub mul IdealArith].
  repeat split.
  - intros Hc. nra.
  - intros Hc. nra.
  - intros Hc. nra.
  - intros HV. rewrite HV. cbn [vx vy vz].
    destruct (force_acc G s q) as [a b c]. cbn [vx vy vz].
    f_equal; lra.
Qed.

(** X15.  Wind is bounded: when every random draw lies in [0, 1), the
    change of each force accumulator of a target listed once is at most
    the direction component times the magnitude, in absolute value. *)
Theorem wind_is_bounded (G : Globals R) (random : nat -> R) (f : Force R)
    (s : Float32Array R) (l1 l2 : list nat) (q : nat) :
  layout_ok G ->
  _enabled f = true -> _type f = FORCE_TYPE.FORCE_WIND ->
  _p f = l1 ++ q :: l2 -> q ∉ l1 ++ l2 -> in_buffer G s q ->
  (forall n, 0 <= random n < 1) ->
  let F := force_acc G s q in
  let F' := force_acc G (apply G f random s) q in
  Rabs (vx F' - vx F) <= Rabs (_x f * _magnitude f)
  /\ Rabs (vy F' - vy F) <= Rabs (_y f * _magnitude f)
  /\ Rabs (vz F' - vz F) <= Rabs (_z f * _magnitude f).
Proof.
  intros Hok Hon Hty Hp Hnin Hb Hr F F'. subst F F'.
  rewrite (apply_is_wind G random f s Hon Hty). unfold apply_wind.
  rewrite Hp, (wind_gusts G random f Hok l1 q l2 s Hnin Hb).
  unfold glMatrix.vadd, gust.
  cbn [vx vy vz fround add sub mul lit IdealArith].
  rewrite lit_1, lit_2.
  assert (forall a b r, 0 <= r < 1 ->
            Rabs (a + b * (r * 2 - 1) - a) <= Rabs b) as Hbound.
  { intros a b r Hr01.
    replace (a + b * (r * 2 - 1) - a) with (b * (r * 2 - 1)) by ring.
    rewrite Rabs_mult. rewrite <- (Rmult_1_r (Rabs b)) at 2.
    apply Rmult_le_compat_l; [apply Rabs_pos|].
    apply Rabs_le. lra. }
  repeat split; apply Hbound, Hr.
Qed.

(** *** Vortex *)

(** X16.  The vortex rotates about the z axis through its anchor,
    whatever its direction [a]: the vector added to the velocity has no z
    component, and the particle moved by that vector is as far from the
    anchor, in x and y, as it was. *)
Theorem vortex_rotates_about_z (G : Globals R) (f : Force R)
    (s : Float32Array R) (q : nat) :
  let x_i := position G s q in
  let x_v := _x_a f in
  let dv := vortex_dv G f s q in
  vz dv = 0
  /\ (vx x_i + vx dv - vx x_v) * (vx x_i + vx dv - vx x_v)
     + (vy x_i + vy dv - vy x_v) * (vy x_i + vy dv - vy x_v)
     = (vx x_i - vx x_v) * (vx x_i - vx x_v)
       + (vy x_i - vy x_v) * (vy x_i - vy x_v).
Proof.
  intros x_i x_v dv. subst x_i x_v dv.
  unfold vortex_dv, glMatrix.rotateZ.
  cbn [vx vy vz fround add sub mul Math_cos Math_sin IdealArith].
  set (w := omega G f s q).
  pose proof (sin2_cos2 w) as Hsc. unfold Rsqr in Hsc.
  destruct (position G s q) as [a b c]. destruct (_x_a f) as [u v t].
  cbn [vx vy vz]. split; [ring|].
  match goal with
  | |- ?l = ?r =>
      replace l with (((a - u) * (a - u) + (b - v) * (b - v))
                      * (sin w * sin w + cos w * cos w)) by ring
  end.
  rewrite Hsc. ring.
Qed.

Lemma vortex_unchanged (G : Globals R) (f : Force R) (s : Float32Array R)
    (q : nat) :
  layout_ok G -> vortex_guard G f s q = false ->
  velocity_acc G (apply_vortex G f s) q = velocity_acc G s q.
Proof.
  intros Hok Hg. unfold apply_vortex, velocity_acc.
  apply (loop_field3_unchanged G (V_X G) (V_Y G) (V_Z G)
           (layout_V_lt G Hok) (layout_V_ne G Hok) nat (fun q => q)
           (vortex_step G f)
           (fun s q =>
              if vortex_guard G f s q then Some (vortex_dv G f s q)
              else None)
           (vortex_step_spec G f) (vortex_delta_agree G f Hok)).
  intros x d v k _ -> Hd. by rewrite Hg in Hd.
Qed.

(** X17.  The vortex is contained: a particle whose axial offset from
    the anchor is outside [0.01, L), or whose distance from the axis is
    not below the radius [_r], keeps its velocity. *)
Theorem vortex_is_contained (G : Globals R) (random : nat -> R)
    (f : Force R) (s : Float32Array R) (q : nat) :
  layout_ok G ->
  _enabled f = true -> _type f = FORCE_TYPE.FORCE_VORTEX ->
  ~ (1 / 100 <= l_vi G f s q < _L f) \/ _r f <= norm (r_i G f s q) ->
  velocity_acc G (apply G f random s) q = velocity_acc G s q.
Proof.
  intros Hok Hon Hty Hout.
  rewrite (apply_is_vortex G random f s Hon Hty).
  apply vortex_unchanged; [done|].
  destruct (vortex_guard G f s q) eqn:Hg; [|done].
  apply PointVortexReal.vortex_guard_real in Hg as [Hl Hr].
  destruct Hout as [Hout|Hout]; [by destruct Hout | lra].
Qed.

(** *** Point and line attractors *)

(** X18.  The point attractor is an inverse-power pull: for a target at
    distance [len > 0] within range, the vector added has length
    [|r| / len^pow]. *)
Theorem point_attractor_inverse_power (G : Globals R) (f : Force R)
    (s : Float32Array R) (q : nat) :
  let len := norm (attractor_dir G f s q) in
  0 < len ->
  norm (point_pull G f s q) = Rabs (_r f) / R_pow len (_pow f).
Proof.
  intros len Hlen. subst len.
  rewrite PointVortexReal.point_pull_real, norm_scale.
  rewrite R_pow_succ by done.
  pose proof (R_pow_pos _ (_pow f) Hlen) as Hpw.
  unfold Rdiv. rewrite Rabs_mult, Rabs_inv.
  rewrite (Rabs_right (_ * _)) by nra.
  field. split; lra.
Qed.


(** *** Force.draw *)

(** X20.  A spring stretched or squeezed by more than its natural length
    (and by at least 0.01) is drawn with negative green and blue
    components: the colour is (1, delta, delta) with
    delta = 1 - |len - lr| / lr < 0. *)
Theorem draw_colour_goes_negative (f : Force R) (p0 p1 : vec3 R) :
  let dev := Rabs (draw_len p0 p1 - _lr f) in
  let delta := 1 - dev / _lr f in
  0 < _lr f -> _lr f < dev -> 1 / 100 <= dev ->
  spring_colour f p0 p1 = (1, delta, delta) /\ delta < 0.
Proof.
  intros dev delta Hlr Hdev Heps. subst dev delta.
  assert (1 - Rabs (draw_len p0 p1 - _lr f) / _lr f < 0) as Hneg.
  { apply Rlt_minus. apply (Rmult_lt_reg_r (_lr f)); [done|].
    unfold Rdiv. rewrite Rmult_assoc, Rinv_l by lra. lra. }
  split; [|exact Hneg].
  unfold spring_colour, draw_delta.
  cbn [ltb leb sub div lit Math_abs IdealArith].
  rewrite lit_0_01, lit_0_33, lit_1.
  rewrite Rltb_false by lra. rewrite Rleb_true by lra. reflexivity.
Qed.

(** *** VBOBox *)

Lemma number_of_nat_real (n : nat) : number_of_nat n = INR n.
Proof.
  unfold number_of_nat. cbn [lit IdealArith].
  rewrite Q2R_Z. symmetry. apply INR_IZR_INZ.
Qed.

(** X21.  For a vertex array that is not empty and an attribute count
    that is not zero, the constructor sets the stride (the size of one
    vertex in bytes) to four times the attribute count, and the vertex
    count times the attribute count is the length of the array. *)
Theorem vbo_stride_is_four_per_attribute (vertex_array : Float32Array R)
    (attribute_count : R)
    (attributes : list (String.string * (R * R))) :
  vertex_array <> [] -> attribute_count <> 0 ->
  let box := new_VBOBox vertex_array attribute_count attributes in
  vbo_stride box = attribute_count * 4
  /\ vertex_count box * attribute_count = INR (List.length vertex_array)
  /\ vbo_size box = INR (List.length vertex_array) * 4.
Proof.
  intros Hne Hac box. subst box.
  assert (INR (List.length vertex_array) <> 0) as Hlen.
  { apply not_0_INR. by destruct vertex_array. }
  unfold new_VBOBox. cbn [vbo_stride vertex_count vbo_size].
  rewrite number_of_nat_real. cbn [div mul lit IdealArith].
  change (Q2R 4) with (Q2R (inject_Z 4)). rewrite Q2R_Z.
  repeat split; field; done.
Qed.
End RealMore.

(** ** Drawing several forces, and switching a force on and off *)

Section DrawAndSwitch.
Context {num : Type} `{Arith num}.

(** X22.  Springs drawn at different indices never overlap in the
    vertex buffer: the elements [offset, offset + length) written for one
    index lie entirely before or entirely after those written for
    another, whatever the two forces and their end points. *)
Theorem draw_segments_are_disjoint (f g : Force num)
    (random_f random_g : nat -> num) (i j : nat) (e e' : bool)
    (p0 p1 p0' p1' : vec3 num) (d1 d2 : list num) (o1 o2 : nat) :
  i <> j ->
  (d1, o1) ∈ draw f random_f i e p0 p1 ->
  (d2, o2) ∈ draw g random_g j e' p0' p1' ->
  (o1 + List.length d1 <= o2 \/ o2 + List.length d2 <= o1)%nat.
Proof.
  intros Hne H1 H2. unfold draw in H1, H2.
  destruct (_type f =? FORCE_TYPE.FORCE_SPRING);
    [|by apply elem_of_nil in H1].
  destruct (_type g =? FORCE_TYPE.FORCE_SPRING);
    [|by apply elem_of_nil in H2].
  destruct (spring_colour f p0 p1) as [[r1 g1] b1].
  destruct (spring_colour g p0' p1') as [[r2 g2] b2].
  apply list_elem_of_singleton in H1. apply list_elem_of_singleton in H2.
  injection H1 as -> ->. injection H2 as -> ->.
  cbn [List.length map]. lia.
Qed.

(** X23.  Switching an enabled force off and on again gives back the
    same force, field for field, so [apply] acts as before; while it is
    off, [apply] does nothing. *)
Theorem enable_undoes_disable (G : Globals num) (random : nat -> num)
    (f : Force num) (s : Float32Array num) :
  _enabled f = true ->
  enable (disable f) = f
  /\ apply G (enable (disable f)) random s = apply G f random s
  /\ apply G (disable f) random s = s.
Proof.
  intros Hon.
  assert (enable (disable f) = f) as E.
  { destruct f. cbn in Hon. subst. reflexivity. }
  split; [exact E|]. split; [by rewrite E|].
  unfold apply, apply_log. reflexivity.
Qed.
End DrawAndSwitch.

(** ** The further properties on concrete forces *)

Ltac not_in_list :=
let Hin := fresh "Hin" in
intros Hin;
repeat (apply elem_of_cons in Hin as [Hin|Hin]; [discriminate|]);
by apply elem_of_nil in Hin.

Lemma apply_writes_force_fields_only_witness :
apply Ideal.G0 Ideal.spring_1_1_0 Ideal.random0 Ideal.two_particles
  !! 10%nat
= Some 2%R.
Proof.
rewrite (apply_writes_force_fields_only Ideal.G0 Ideal.random0
           Ideal.spring_1_1_0 SpringExample.layout_ok_G0
           Ideal.two_particles 10).
- reflexivity.
- discriminate.
- cbn. not_in_list.
Defined.

Lemma vortex_writes_velocity_fields_only_witness :
apply Ideal.G0 Ideal.vortex_along_x Ideal.random0 Ideal.on_the_axis
  !! 0%nat
= Some 1%R.
Proof.
rewrite (vortex_writes_velocity_fields_only Ideal.G0 Ideal.random0
           Ideal.vortex_along_x SpringExample.layout_ok_G0
           Ideal.on_the_axis 0).
- reflexivity.
- reflexivity.
- cbn. not_in_list.
Defined.

Lemma apply_empty_targets_witness :
apply Ideal.G0 (new_Force FORCE_TYPE.FORCE_SPRING []) Ideal.random0
  Ideal.two_particles
= Ideal.two_particles.
Proof.
apply (apply_empty_targets Ideal.G0 Ideal.random0
         (new_Force FORCE_TYPE.FORCE_SPRING []) Ideal.two_particles).
reflexivity.
Defined.

Lemma apply_leaves_other_particles_witness :
apply Ideal.G0 IdealMore.uniform_attractor Ideal.random0
  Ideal.two_particles !! ix Ideal.G0 0 6
= Ideal.two_particles !! ix Ideal.G0 0 6.
Proof.
apply (apply_leaves_other_particles Ideal.G0 Ideal.random0
         IdealMore.uniform_attractor SpringExample.layout_ok_G0
         Ideal.two_particles 0 6).
- cbn. not_in_list.
- cbn. lia.
Defined.

Lemma disjoint_forces_commute_witness :
apply Ideal.G0 IdealMore.drag Ideal.random0
  (apply Ideal.G0 IdealMore.uniform_attractor Ideal.random0
     IdealMore.moving)
= apply Ideal.G0 IdealMore.uniform_attractor Ideal.random0
    (apply Ideal.G0 IdealMore.drag Ideal.random0 IdealMore.moving).
Proof.
apply (disjoint_forces_commute Ideal.G0 IdealMore.drag
         IdealMore.uniform_attractor Ideal.random0 Ideal.random0
         IdealMore.moving SpringExample.layout_ok_G0).
- split; discriminate.
- intros q Hq. apply list_elem_of_singleton in Hq as ->.
  cbn. not_in_list.
Defined.

Lemma listed_once_first (q : nat) (l : list nat) :
q ∉ l -> listed_once (q :: l) q.
Proof. intros Hq. by exists [], l. Qed.

Lemma moving_in_buffer q : (q < 2)%nat -> in_buffer Ideal.G0 IdealMore.moving q.
Proof. intros Hq. unfold in_buffer. cbn. lia. Qed.

Lemma gravity_adds_mass_times_magnitude_witness :
force_acc Ideal.G0
  (apply Ideal.G0 IdealMore.gravity Ideal.random0 Ideal.two_particles) 0
= Vec3 (vx (force_acc Ideal.G0 Ideal.two_particles 0))
       (vy (force_acc Ideal.G0 Ideal.two_particles 0))
       (vz (force_acc Ideal.G0 Ideal.two_particles 0)
        + rd Ideal.two_particles (ix Ideal.G0 0 (MASS Ideal.G0))
          * _magnitude IdealMore.gravity)%R.
Proof.
assert (listed_once (_p IdealMore.gravity) 0) as Hq
  by (apply listed_once_first; not_in_list).
assert (in_buffer Ideal.G0 Ideal.two_particles 0) as Hb
  by (apply SpringExample.two_particles_in_buffer; lia).
exact (gravity_adds_mass_times_magnitude Ideal.G0 Ideal.random0
         IdealMore.gravity SpringExample.layout_ok_G0
         Ideal.two_particles 0 eq_refl eq_refl Hq Hb).
Defined.

Lemma drag_subtracts_scaled_velocity_witness :
force_acc Ideal.G0
  (apply Ideal.G0 IdealMore.drag Ideal.random0 IdealMore.moving) 0
= Vec3
    (vx (force_acc Ideal.G0 IdealMore.moving 0)
     - vx (velocity_acc Ideal.G0 IdealMore.moving 0)
       * (_x IdealMore.drag * _magnitude IdealMore.drag))%R
    (vy (force_acc Ideal.G0 IdealMore.moving 0)
     - vy (velocity_acc Ideal.G0 IdealMore.moving 0)
       * (_y IdealMore.drag * _magnitude IdealMore.drag))%R
    (vz (force_acc Ideal.G0 IdealMore.moving 0)
     - vz (velocity_acc Ideal.G0 IdealMore.moving 0)
       * (_z IdealMore.drag * _magnitude IdealMore.drag))%R.
Proof.
assert (listed_once (_p IdealMore.drag) 0) as Hq
  by (apply listed_once_first; not_in_list).
assert (in_buffer Ideal.G0 IdealMore.moving 0) as Hb
  by (apply moving_in_buffer; lia).
exact (drag_subtracts_scaled_velocity Ideal.G0 Ideal.random0
         IdealMore.drag SpringExample.layout_ok_G0 IdealMore.moving 0
         eq_refl eq_refl Hq Hb).
Defined.

Lemma wind_adds_three_gusts_witness :
force_acc Ideal.G0
  (apply Ideal.G0 IdealMore.wind IdealMore.random_quarter
     IdealMore.moving) 0
= glMatrix.vadd (force_acc Ideal.G0 IdealMore.moving 0)
    (Vec3
       (_x IdealMore.wind * _magnitude IdealMore.wind
        * (IdealMore.random_quarter 3 * Q2R 2 - Q2R 1))%R
       (_y IdealMore.wind * _magnitude IdealMore.wind
        * (IdealMore.random_quarter 4 * Q2R 2 - Q2R 1))%R
       (_z IdealMore.wind * _magnitude IdealMore.wind
        * (IdealMore.random_quarter 5 * Q2R 2 - Q2R 1))%R).
Proof.
assert (0 ∉ [1] ++ []) as Hq by (cbn; not_in_list).
assert (in_buffer Ideal.G0 IdealMore.moving 0) as Hb
  by (apply moving_in_buffer; lia).
exact (wind_adds_three_gusts Ideal.G0 IdealMore.random_quarter
         IdealMore.wind SpringExample.layout_ok_G0 IdealMore.moving
         [1] [] 0 eq_refl eq_refl eq_refl Hq Hb).
Defined.

Lemma uniform_attractor_adds_offset_witness :
force_acc Ideal.G0
  (apply Ideal.G0 IdealMore.uniform_attractor Ideal.random0
     Ideal.two_particles) 1
= glMatrix.vadd (force_acc Ideal.G0 Ideal.two_particles 1)
    (glMatrix.vsub (_x_a IdealMore.uniform_attractor)
       (position Ideal.G0 Ideal.two_particles 1)).
Proof.
apply (uniform_attractor_adds_offset Ideal.G0 Ideal.random0
         IdealMore.uniform_attractor SpringExample.layout_ok_G0
         Ideal.two_particles 1 eq_refl eq_refl).
- apply AttractorsReal.listed_once_singleton.
- apply SpringExample.two_particles_in_buffer. lia.
Defined.

Lemma flock_adds_initial_acceleration_witness :
force_acc Ideal.G0
  (apply Ideal.G0 Ideal.flock_of_two Ideal.random0 Ideal.two_boids) 0
= glMatrix.vadd (force_acc Ideal.G0 Ideal.two_boids 0)
    (flock_a_i Ideal.G0 Ideal.flock_of_two
       (x_p Ideal.G0 Ideal.two_boids) Ideal.two_boids 0).
Proof.
apply (flock_adds_initial_acceleration Ideal.G0 Ideal.random0
         Ideal.flock_of_two SpringExample.layout_ok_G0 Ideal.two_boids 0
         eq_refl eq_refl).
- cbn. lia.
- intros j Hj Hne. cbn in Hj.
  destruct j as [|[|j]]; [done | discriminate | lia].
- unfold in_buffer. cbn. lia.
Defined.

Lemma spring_at_rest_adds_nothing_witness :
spring_distance Ideal.G0 IdealMore.spring_at_rest Ideal.two_particles
= _lr IdealMore.spring_at_rest
/\ spring_F Ideal.G0 IdealMore.spring_at_rest Ideal.two_particles
   = Vec3 0%R 0%R 0%R.
Proof.
assert (spring_distance Ideal.G0 IdealMore.spring_at_rest
          Ideal.two_particles = _lr IdealMore.spring_at_rest) as Hd.
{ apply (SpringExample.spring_distance_2 Ideal.G0
           IdealMore.spring_at_rest Ideal.two_particles);
    reflexivity. }
split; [exact Hd|].
apply (RealMore.spring_at_rest_adds_nothing Ideal.G0 Ideal.random0
         IdealMore.spring_at_rest Ideal.two_particles 0 1
         SpringExample.layout_ok_G0 eq_refl eq_refl eq_refl eq_refl).
- lia.
- apply SpringExample.two_particles_in_buffer. lia.
- apply SpringExample.two_particles_in_buffer. lia.
- exact Hd.
- cbn. lra.
Defined.

Lemma spring_limit_is_one_sided_witness :
spring_F Ideal.G0 Ideal.spring_100_1_0
  (Ideal.a_particle 0 0 0 0 0 0 0 0 0 1
   ++ Ideal.a_particle (- 2) 0 0 0 0 0 0 0 0 1)%R
= Vec3 (- _k Ideal.spring_100_1_0)%R 0%R 0%R.
Proof.
apply (RealMore.spring_limit_is_one_sided Ideal.G0 Ideal.spring_100_1_0
         (Ideal.a_particle 0 0 0 0 0 0 0 0 0 1
          ++ Ideal.a_particle (- 2) 0 0 0 0 0 0 0 0 1)%R
         eq_refl eq_refl).
- cbn. lra.
- reflexivity.
- reflexivity.
Defined.

Lemma drag_opposes_velocity_witness :
((vx (force_acc Ideal.G0
        (apply Ideal.G0 IdealMore.drag Ideal.random0 IdealMore.moving) 0)
  - vx (force_acc Ideal.G0 IdealMore.moving 0))
 * vx (velocity_acc Ideal.G0 IdealMore.moving 0) <= 0)%R.
Proof.
destruct (RealMore.drag_opposes_velocity Ideal.G0 Ideal.random0
            IdealMore.drag IdealMore.moving 0
            SpringExample.layout_ok_G0 eq_refl eq_refl)
  as (Hx & _).
- apply listed_once_first. not_in_list.
- apply moving_in_buffer. lia.
- apply Hx. cbn. lra.
Defined.

Lemma wind_is_bounded_witness :
(Rabs
   (vx (force_acc Ideal.G0
          (apply Ideal.G0 IdealMore.wind IdealMore.random_quarter
             IdealMore.moving) 0)
    - vx (force_acc Ideal.G0 IdealMore.moving 0))
 <= Rabs (_x IdealMore.wind * _magnitude IdealMore.wind))%R.
Proof.
apply (RealMore.wind_is_bounded Ideal.G0 IdealMore.random_quarter
         IdealMore.wind IdealMore.moving [1] [] 0
         SpringExample.layout_ok_G0 eq_refl eq_refl eq_refl).
- cbn. not_in_list.
- apply moving_in_buffer. lia.
- intros n. unfold IdealMore.random_quarter. lra.
Defined.

Lemma vortex_is_contained_witness :
velocity_acc Ideal.G0
  (apply Ideal.G0 Ideal.vortex_along_x Ideal.random0 Ideal.two_particles)
  0
= velocity_acc Ideal.G0 Ideal.two_particles 0.
Proof.
apply (RealMore.vortex_is_contained Ideal.G0 Ideal.random0
         Ideal.vortex_along_x Ideal.two_particles 0
         SpringExample.layout_ok_G0 eq_refl eq_refl).
left.
assert (l_vi Ideal.G0 Ideal.vortex_along_x Ideal.two_particles 0 = 0%R)
  as ->.
{ unfold l_vi, x_vi, glMatrix.dot, glMatrix.vsub.
  change (position Ideal.G0 Ideal.two_particles 0)
    with (Vec3 0%R 0%R 0%R).
  change (_x_a Ideal.vortex_along_x) with (Vec3 0%R 0%R 0%R).
  change (_a Ideal.vortex_along_x) with (Vec3 1%R 0%R 0%R).
  cbn [vx vy vz fround sub mul add Ideal.IdealArith]. lra. }
lra.
Defined.

Lemma point_attractor_inverse_power_witness :
Ideal.norm
  (point_pull Ideal.G0 Ideal.point_at_origin Ideal.one_particle_on_x 0)
= (Rabs (_r Ideal.point_at_origin)
   / Ideal.R_pow
       (Ideal.norm
          (attractor_dir Ideal.G0 Ideal.point_at_origin
             Ideal.one_particle_on_x 0))
       (_pow Ideal.point_at_origin))%R.
Proof.
apply (RealMore.point_attractor_inverse_power Ideal.G0
         Ideal.point_at_origin Ideal.one_particle_on_x 0).
rewrite (proj2 PointVortexReal.dir_one_particle_on_x). lra.
Defined.


Lemma draw_colour_goes_negative_witness :
(1 - Rabs (draw_len (Vec3 0 0 0) (Vec3 3 0 0) - _lr Ideal.spring_1_1_0)
     / _lr Ideal.spring_1_1_0 < 0)%R.
Proof.
assert (draw_len (Vec3 0%R 0%R 0%R) (Vec3 3%R 0%R 0%R) = 3%R) as E
  by (apply DrawReal.draw_len_along_x; lra).
apply (RealMore.draw_colour_goes_negative Ideal.spring_1_1_0
         (Vec3 0%R 0%R 0%R) (Vec3 3%R 0%R 0%R)).
- cbn. lra.
- rewrite E. change (_lr Ideal.spring_1_1_0) with 1%R.
  rewrite Rabs_right; lra.
- rewrite E. change (_lr Ideal.spring_1_1_0) with 1%R.
  rewrite Rabs_right; lra.
Defined.

Lemma vbo_stride_is_four_per_attribute_witness :
vbo_stride (new_VBOBox Ideal.two_particles 10%R []) = (10 * 4)%R.
Proof.
apply (RealMore.vbo_stride_is_four_per_attribute Ideal.two_particles
         10%R []).
- discriminate.
- lra.
Defined.

Lemma draw_half_compressed (index : nat) :
draw Ideal.spring_1_1_0 Ideal.random0 index true (Vec3 0%R 0%R 0%R)
  (Vec3 (1 / 2)%R 0%R 0%R)
= [([0; 0; 0; 1 / 2; 1 / 2; 1; 1; 1 / 2; 0; 0; 1 / 2; 1 / 2; 1; 1]%R,
    index * 7 * 2)].
Proof.
unfold draw. cbn [_type Ideal.spring_1_1_0 init_spring new_Force Nat.eqb
                  FORCE_TYPE.FORCE_SPRING].
rewrite (DrawReal.colour_half_off (1 / 2)%R).
- cbn [map fround flag andb _enabled Ideal.spring_1_1_0 init_spring
       new_Force vx vy vz lit Ideal.IdealArith].
  by rewrite AttractorsReal.lit_1.
- lra.
- rewrite Rabs_left; lra.
Qed.

Lemma draw_segments_are_disjoint_witness :
let d := [0; 0; 0; 1 / 2; 1 / 2; 1; 1;
          1 / 2; 0; 0; 1 / 2; 1 / 2; 1; 1]%R in
(d, 0) ∈ draw Ideal.spring_1_1_0 Ideal.random0 0 true (Vec3 0%R 0%R 0%R)
           (Vec3 (1 / 2)%R 0%R 0%R)
/\ (d, 14) ∈ draw Ideal.spring_1_1_0 Ideal.random0 1 true
               (Vec3 0%R 0%R 0%R) (Vec3 (1 / 2)%R 0%R 0%R)
/\ (0 + List.length d <= 14 \/ 14 + List.length d <= 0)%nat.
Proof.
intros d.
assert ((d, 0) ∈ draw Ideal.spring_1_1_0 Ideal.random0 0 true
                   (Vec3 0%R 0%R 0%R) (Vec3 (1 / 2)%R 0%R 0%R)) as H0.
{ rewrite draw_half_compressed. by left. }
assert ((d, 14) ∈ draw Ideal.spring_1_1_0 Ideal.random0 1 true
                    (Vec3 0%R 0%R 0%R) (Vec3 (1 / 2)%R 0%R 0%R)) as H1.
{ rewrite draw_half_compressed. by left. }
split; [exact H0|]. split; [exact H1|].
apply (draw_segments_are_disjoint Ideal.spring_1_1_0 Ideal.spring_1_1_0
         Ideal.random0 Ideal.random0 0 1 true true
         (Vec3 0%R 0%R 0%R) (Vec3 (1 / 2)%R 0%R 0%R)
         (Vec3 0%R 0%R 0%R) (Vec3 (1 / 2)%R 0%R 0%R) d d 0 14);
  [lia | exact H0 | exact H1].
Defined.

Lemma enable_undoes_disable_witness :
enable (disable Ideal.spring_1_1_0) = Ideal.spring_1_1_0.
Proof.
apply (enable_undoes_disable Ideal.G0 Ideal.random0 Ideal.spring_1_1_0
         Ideal.two_particles).
reflexivity.
Defined.
